(** * ai_workflow_engine: the graph execution engine of [app/graph_engine.py]

    A shallow embedding of the engine (registries, graph and run records,
    [_emit], [_shortrepr], [execute_graph_run], [create_graph],
    [run_graph_async], the tool [simple_issue_counter]) and of
    the log subscriber of [app/main.py]
    ([websocket_logs]), followed by the properties of the specification
    that were checked against it.

    Conventions.
    - Python values are the JSON data model the HTTP layer feeds the
      engine with: [None], booleans, integers, strings, lists and
      string-keyed dictionaries (floats are left out).  A dictionary is an
      association list in insertion order, as [str] prints it.
    - A node or tool function is a function of the state mapping; it
      yields the state as it left it (functions mutate [state] in place)
      together with its return value or the exception it raised.
    - What the interpreter supplies and the repository does not define
      ([repr] of a string, [eval], [traceback.format_exc]) is a field of
      the [Runtime] record, next to the two registries. *)

From Stdlib Require Import ZArith String Ascii List DecimalString.
From stdpp Require Import base gmap strings list.
Import ListNotations.
Local Open Scope string_scope.

(** ** Python values *)

#[warnings="-register-all"]
Inductive value : Type :=
| VNone
| VBool (b : bool)
| VInt (z : Z)
| VStr (s : string)
| VList (l : list value)
| VDict (d : list (string * value)).

(** [Dict[str, Any]] *)
Abbreviation dict := (list (string * value)).

(** [d.get(k)]: [None] when the key is absent. *)
Fixpoint dict_get (d : dict) (k : string) : value :=
  match d with
  | [] => VNone
  | (k', v) :: d' => if String.eqb k k' then v else dict_get d' k
  end.

(** [k in d] *)
Fixpoint dict_has (d : dict) (k : string) : bool :=
  match d with
  | [] => false
  | (k', _) :: d' => if String.eqb k k' then true else dict_has d' k
  end.

(** [d[k] = v]: overwrite in place, or append a new key at the end. *)
Fixpoint dict_set (d : dict) (k : string) (v : value) : dict :=
  match d with
  | [] => [(k, v)]
  | (k', v') :: d' =>
      if String.eqb k k' then (k', v) :: d' else (k', v') :: dict_set d' k v
  end.

(** [d.update(res)]: every entry of [res], in order, last write wins. *)
Definition dict_update (d res : dict) : dict :=
  fold_left (fun acc kv => dict_set acc (fst kv) (snd kv)) res d.

(** Truth value of an object, as [if obj:] tests it. *)
Definition truthy (v : value) : bool :=
  match v with
  | VNone => false
  | VBool b => b
  | VInt z => negb (Z.eqb z 0)
  | VStr s => negb (String.eqb s "")
  | VList l => match l with [] => false | _ => true end
  | VDict d => match d with [] => false | _ => true end
  end.

(** Lists and dictionaries are unhashable: using one as a dictionary key
    raises [TypeError]. *)
Definition hashable (v : value) : bool :=
  match v with
  | VList _ | VDict _ => false
  | _ => true
  end.

(** Name of the type in the [TypeError] message. *)
Definition type_name (v : value) : string :=
  match v with
  | VNone => "NoneType"
  | VBool _ => "bool"
  | VInt _ => "int"
  | VStr _ => "str"
  | VList _ => "list"
  | VDict _ => "dict"
  end.

(** ** Strings *)

(** [c.lower()] on one character (ASCII letters; the bytes of other
    characters are left as they are). *)
Definition lower_ascii (c : ascii) : ascii :=
  let n := nat_of_ascii c in
  if (65 <=? n)%nat && (n <=? 90)%nat then ascii_of_nat (n + 32) else c.

(** [s.lower()]. No character outside ASCII lowers to an ASCII letter
    other than [k] and [i], so comparisons with ["true"] are exact. *)
Fixpoint lower (s : string) : string :=
  match s with
  | EmptyString => EmptyString
  | String c s' => String (lower_ascii c) (lower s')
  end.

(** [s.startswith(p)] *)
Fixpoint startswith (s p : string) {struct p} : bool :=
  match p with
  | EmptyString => true
  | String c p' =>
      match s with
      | EmptyString => false
      | String c' s' => Ascii.eqb c' c && startswith s' p'
      end
  end.

(** [s.split(":", 1)[1]]: what follows the first colon ([None] stands for
    the [IndexError] of a string without a colon). *)
Fixpoint split_colon_1 (s : string) : option string :=
  match s with
  | EmptyString => None
  | String c s' => if Ascii.eqb c ":" then Some s' else split_colon_1 s'
  end.

(** [sep.join(parts)] *)
Fixpoint join (sep : string) (parts : list string) : string :=
  match parts with
  | [] => ""
  | [p] => p
  | p :: ps => p +:+ sep +:+ join sep ps
  end.

(** [str(n)] of an integer: decimal digits, with a sign when negative. *)
Definition str_int (z : Z) : string := NilZero.string_of_int (Z.to_int z).

(** The result of an expression evaluated inside a [try]: its value, or
    the fact that it raised. *)
Inductive exn_free (A : Type) : Type :=
| Done (a : A)
| Failed.
Arguments Done {A} a.
Arguments Failed {A}.

Section Repr.
(** [repr] of a string (quoting and escaping are the interpreter's). *)
Variable repr_str : string -> string.

(** [repr(v)] *)
Fixpoint py_repr (v : value) : string :=
  match v with
  | VNone => "None"
  | VBool true => "True"
  | VBool false => "False"
  | VInt z => str_int z
  | VStr s => repr_str s
  | VList l => "[" +:+ join ", " (map py_repr l) +:+ "]"
  | VDict d =>
      "{" +:+ join ", " (map (fun kv => repr_str (fst kv) +:+ ": " +:+ py_repr (snd kv)) d)
          +:+ "}"
  end.

(** [str(v)], which is also what an f-string field prints. *)
Definition py_str (v : value) : string :=
  match v with
  | VStr s => s
  | _ => py_repr v
  end.
End Repr.

(** A string holds the UTF-8 bytes of the text. A character is a byte that
    is not a continuation byte (binary 10xxxxxx), together with the
    continuation bytes that follow it. *)
Definition is_continuation (c : ascii) : bool :=
  let n := nat_of_ascii c in (128 <=? n)%nat && (n <? 192)%nat.

(** [len(s)]: the number of characters. *)
Fixpoint str_len (s : string) : nat :=
  match s with
  | EmptyString => 0
  | String c s' => if is_continuation c then str_len s' else S (str_len s')
  end.

(** [s[:n]]: the first [n] characters, each with all its bytes. *)
Fixpoint str_take (n : nat) (s : string) : string :=
  match s with
  | EmptyString => EmptyString
  | String c s' =>
      if is_continuation c then String c (str_take n s')
      else match n with
           | O => EmptyString
           | S n' => String c (str_take n' s')
           end
  end.

(** [str(obj)] as the [try] of [_shortrepr] calls it: no value of this
    development makes [str] raise, so the result is always the string. *)
Definition try_str (repr_str : string -> string) (obj : value) : exn_free string :=
  Done (py_str repr_str obj).

(** [_shortrepr]: [str(obj)], cut to 400 characters and an ellipsis;
    [repr(obj)] if [str] raised. *)
Definition _shortrepr (repr_str : string -> string) (obj : value) : string :=
  match try_str repr_str obj with
  | Done s => if (str_len s <=? 400)%nat then s else str_take 400 s +:+ "..."
  | Failed => py_repr repr_str obj
  end.

(** ** Exceptions and callables *)

(** An exception object: [str(exc)], and whether its class derives from
    [Exception] (an [except Exception] clause lets the others through:
    [SystemExit], [KeyboardInterrupt], [asyncio.CancelledError]). *)
Record exn : Type := { exn_msg : string; exn_is_Exception : bool }.

Definition RuntimeError (msg : string) : exn :=
  {| exn_msg := msg; exn_is_Exception := true |}.

Definition TypeError (msg : string) : exn :=
  {| exn_msg := msg; exn_is_Exception := true |}.

Definition IndexError (msg : string) : exn :=
  {| exn_msg := msg; exn_is_Exception := true |}.

(** What a call that receives the state mapping does: the mapping as the
    call left it, and the returned value or the raised exception. *)
Inductive outcome : Type :=
| Returns (st : dict) (res : value)
| Raises (st : dict) (e : exn).

(** A registered node or tool function, as [_call_fn] invokes it. *)
Abbreviation PyFn := (dict -> outcome).

(** [_call_fn]: the function is awaited or run in the executor, and its
    result or exception comes back to the caller either way. *)
Definition _call_fn (fn : PyFn) (st : dict) : outcome := fn st.

(** The registries of the module and the interpreter's services. *)
Record Runtime : Type := {
  tools : gmap string PyFn;
  NODE_FUNCS : gmap string PyFn;
  repr_str : string -> string;
  (** [eval(cond_expr, {"state": state})] *)
  py_eval : value -> dict -> outcome;
  (** [traceback.format_exc()] inside the handler of the exception *)
  format_exc : exn -> string
}.

(** ** Data structures *)

(** A UUID, by its canonical text. *)
Definition UUID : Type := string.

Record NodeDef : Type := {
  key : string;
  fn_name : value;
  next : value;
  meta : dict
}.

Record GraphDef : Type := {
  graph_id : UUID;
  nodes : gmap string NodeDef;
  entry : string
}.

(** [log_queue] is the content of the [asyncio.Queue] (unbounded, first in
    first out); [None] is the end-of-stream marker. *)
Record RunState : Type := {
  run_id : UUID;
  run_graph_id : UUID;
  current_node : value;
  state : dict;
  status : string;
  logs : list string;
  log_queue : list (option string)
}.

(** [RunState(run_id=.., graph_id=.., current_node=None, state=..)] with
    the defaults of the dataclass. *)
Definition RunState_new (rid gid : UUID) (st : dict) : RunState :=
  {| run_id := rid; run_graph_id := gid; current_node := VNone; state := st;
     status := "PENDING"; logs := []; log_queue := [] |}.

Definition set_status (rs : RunState) (s : string) : RunState :=
  {| run_id := run_id rs; run_graph_id := run_graph_id rs;
     current_node := current_node rs; state := state rs;
     status := s; logs := logs rs; log_queue := log_queue rs |}.

Definition set_current_node (rs : RunState) (k : value) : RunState :=
  {| run_id := run_id rs; run_graph_id := run_graph_id rs;
     current_node := k; state := state rs;
     status := status rs; logs := logs rs; log_queue := log_queue rs |}.

Definition set_state (rs : RunState) (st : dict) : RunState :=
  {| run_id := run_id rs; run_graph_id := run_graph_id rs;
     current_node := current_node rs; state := st;
     status := status rs; logs := logs rs; log_queue := log_queue rs |}.

(** [log_queue.put(item)]: the queue is unbounded, so [put] neither waits
    nor fails. *)
Definition queue_put (rs : RunState) (item : option string) : RunState :=
  {| run_id := run_id rs; run_graph_id := run_graph_id rs;
     current_node := current_node rs; state := state rs;
     status := status rs; logs := logs rs;
     log_queue := log_queue rs ++ [item] |}.

(** [_emit]: append to [logs] and push to [log_queue]. *)
Definition _emit (rs : RunState) (msg : string) : RunState :=
  queue_put
    {| run_id := run_id rs; run_graph_id := run_graph_id rs;
       current_node := current_node rs; state := state rs;
       status := status rs; logs := logs rs ++ [msg];
       log_queue := log_queue rs |}
    (Some msg).

(** ** The engine *)

(** The line feed of the f-string in the exception handler. *)
Definition LF : string := String (ascii_of_nat 10) EmptyString.

(** [obj is True] *)
Definition is_True (v : value) : bool :=
  match v with
  | VBool true => true
  | _ => false
  end.

(** [isinstance(result, dict) and "next" in result] *)
Definition has_next (result : value) : bool :=
  match result with
  | VDict d => dict_has d "next"
  | _ => false
  end.

(** [registry.get(k)] for a key that may be any object: the registries and
    the node table are keyed by strings, so another hashable key is
    absent, and an unhashable one raises. *)
Definition table_get {A : Type} (m : gmap string A) (k : value) : exn + option A :=
  match k with
  | VStr s => inr (m !! s)
  | _ =>
      if hashable k then inr None
      else inl (TypeError ("unhashable type: '" +:+ type_name k +:+ "'"))
  end.

(** How one part of the loop body ends: with a value, or by raising. In
    both cases the run state is the one the part left behind. *)
Inductive step (A : Type) : Type :=
| Ok (rs : RunState) (a : A)
| Err (rs : RunState) (e : exn).
Arguments Ok {A} rs a.
Arguments Err {A} rs e.

(** [str(v)] with the interpreter's [repr] for the strings inside. *)
Definition str_of (R : Runtime) (v : value) : string := py_str (repr_str R) v.

Section Engine.
Variable R : Runtime.

Local Abbreviation str := (str_of R).

(** The tool branch: [tools.get(tname)], the call, and the merge of a
    returned mapping. *)
Definition call_tool (s : string) (rs : RunState) : step value :=
  match split_colon_1 s with
  | None => Err rs (IndexError "list index out of range")
  | Some tname =>
      match tools R !! tname with
      | None => Err rs (RuntimeError ("Tool '" +:+ tname +:+ "' not found"))
      | Some tool =>
          match _call_fn tool (state rs) with
          | Raises st e => Err (set_state rs st) e
          | Returns st res =>
              match res with
              | VDict d => Ok (set_state rs (dict_update st d)) res
              | _ => Ok (set_state rs st) res
              end
          end
      end
  end.

(** The node-function branch: [NODE_FUNCS.get(fn_name)], the call, and
    the merge of a returned mapping without a ["next"] key. *)
Definition call_node_fn (fn_name : value) (rs : RunState) : step value :=
  match table_get (NODE_FUNCS R) fn_name with
  | inl e => Err rs e
  | inr None =>
      Err rs (RuntimeError ("Node function '" +:+ str fn_name +:+ "' not registered"))
  | inr (Some fn) =>
      match _call_fn fn (state rs) with
      | Raises st e => Err (set_state rs st) e
      | Returns st res =>
          match res with
          | VDict d =>
              if dict_has d "next" then Ok (set_state rs st) res
              else Ok (set_state rs (dict_update st d)) res
          | _ => Ok (set_state rs st) res
          end
      end
  end.

(** "Execute tool or node function": the [if node_def.fn_name:] block;
    the value is [result]. *)
Definition execute_fn (node_def : NodeDef) (node_key : value) (rs : RunState)
  : step value :=
  if truthy (fn_name node_def) then
    match fn_name node_def with
    | VStr s =>
        if startswith s "tool:" then call_tool s rs
        else call_node_fn (VStr s) rs
    | other => call_node_fn other rs
    end
  else
    Ok (_emit rs ("Node '" +:+ str node_key +:+ "' has no fn_name; skipping execution."))
       VNone.

(** The fallback test on [state.get("last_condition", None)]:
    [branch_flag is True or str(branch_flag).lower() == "true"]. *)
Definition flag_is_true (branch_flag : value) : bool :=
  is_True branch_flag || String.eqb (lower (str branch_flag)) "true".

(** "Priority 2": the [elif node_def.next:] block. *)
Definition static_next (node_def : NodeDef) (rs : RunState) : step value :=
  if truthy (next node_def) then
    match next node_def with
    | VStr s => Ok rs (VStr s)
    | VDict d =>
        if dict_has (meta node_def) "condition" then
          let cond_expr := dict_get (meta node_def) "condition" in
          match py_eval R cond_expr (state rs) with
          | Raises st e =>
              if exn_is_Exception e then
                Err (set_state rs st)
                    (RuntimeError ("Error evaluating condition '" +:+ str cond_expr
                                   +:+ "': " +:+ exn_msg e))
              else Err (set_state rs st) e
          | Returns st cond_val =>
              let branch := if truthy cond_val then "true" else "false" in
              Ok (set_state rs st) (dict_get d branch)
          end
        else
          let branch_flag := dict_get (state rs) "last_condition" in
          if flag_is_true branch_flag then Ok rs (dict_get d "true")
          else Ok rs (dict_get d "false")
    | _ => Ok rs VNone
    end
  else Ok rs VNone.

(** "Decide next node", priorities 1 and 2. *)
Definition decide_next (node_def : NodeDef) (result : value) (rs : RunState)
  : step value :=
  match result with
  | VDict d =>
      if dict_has d "next" then
        let next_node := dict_get d "next" in
        Ok (_emit rs ("Node returned explicit next: " +:+ str next_node)) next_node
      else static_next node_def rs
  | _ => static_next node_def rs
  end.

(** "Priority 3": the stop request in state. *)
Definition stop_override (next_node : value) (rs : RunState) : RunState * value :=
  if is_True (dict_get (state rs) "stop") then
    (_emit rs "State requested stop -> finishing run.", VNone)
  else (rs, next_node).

(** How one turn of the [while] loop ends. *)
Inductive flow : Type :=
| Next (rs : RunState) (next_node : value)
| Break (rs : RunState)
| Raise (rs : RunState) (e : exn).

(** The body of the loop, after [visited += 1]. *)
Definition loop_body (graph : GraphDef) (node_key : value) (rs : RunState) : flow :=
  let rs := set_current_node rs node_key in
  match table_get (nodes graph) node_key with
  | inl e => Raise rs e
  | inr None => Break (_emit rs ("Node '" +:+ str node_key +:+ "' not found. Stopping."))
  | inr (Some node_def) =>
      let rs := _emit rs ("Entering node: " +:+ str node_key) in
      match execute_fn node_def node_key rs with
      | Err rs e => Raise rs e
      | Ok rs result =>
          let rs := _emit rs ("Node '" +:+ str node_key +:+ "' completed. result="
                              +:+ _shortrepr (repr_str R) result) in
          match decide_next node_def result rs with
          | Err rs e => Raise rs e
          | Ok rs next_node =>
              let (rs, next_node) := stop_override next_node rs in
              Next rs next_node
          end
      end
  end.

Definition MAX_STEPS : nat := 1000.

(** How the [while] loop ends: it ran to its end or to [break], with the
    final [visited]; or an exception left it. *)
Inductive loop_end : Type :=
| Exited (rs : RunState) (visited : nat)
| Thrown (rs : RunState) (visited : nat) (e : exn).

(** [while node_key is not None and visited < MAX_STEPS]. The recursion
    is on [left], the number of turns the guard still allows: the loop is
    entered with [left = MAX_STEPS - visited], so that
    [visited < MAX_STEPS] is [left > 0]. *)
Fixpoint while_loop (graph : GraphDef) (left visited : nat) (node_key : value)
    (rs : RunState) : loop_end :=
  match node_key with
  | VNone => Exited rs visited
  | _ =>
      match left with
      | O => Exited rs visited
      | S left' =>
          let visited := S visited in
          match loop_body graph node_key rs with
          | Next rs next_node => while_loop graph left' visited next_node rs
          | Break rs => Exited rs visited
          | Raise rs e => Thrown rs visited e
          end
      end
  end.

(** After the loop: [if visited >= MAX_STEPS: ... else: ...]. *)
Definition after_loop (rs : RunState) (visited : nat) : RunState :=
  if (MAX_STEPS <=? visited)%nat then
    set_status
      (_emit rs ("Max steps " +:+ str_int (Z.of_nat MAX_STEPS) +:+ " reached, aborting."))
      "FAILED"
  else
    let rs := set_status rs "DONE" in
    _emit rs ("Run finished. status=" +:+ status rs).

(** [except Exception as exc:] *)
Definition on_exception (rs : RunState) (exc : exn) : RunState :=
  let tb := format_exc R exc in
  set_status (_emit rs ("Execution failed: " +:+ exn_msg exc +:+ LF +:+ tb)) "FAILED".

(** [try: ... except Exception: ... finally: ...] around a loop that is
    about to test its guard with the given [visited] and [node_key]. The
    second component is the exception that leaves the coroutine, when
    the handler does not catch it. *)
Definition try_run (graph : GraphDef) (left visited : nat) (node_key : value)
    (rs : RunState) : RunState * option exn :=
  let (rs, uncaught) :=
    match while_loop graph left visited node_key rs with
    | Exited rs visited => (after_loop rs visited, None)
    | Thrown rs _ exc =>
        if exn_is_Exception exc then (on_exception rs exc, None)
        else (rs, Some exc)
    end in
  (queue_put rs None, uncaught).

Definition execute_graph_run (graph : GraphDef) (run_state : RunState)
  : RunState * option exn :=
  let rs := set_status run_state "RUNNING" in
  let rs := _emit rs ("Run started for graph " +:+ graph_id graph +:+ ", entry="
                      +:+ entry graph) in
  try_run graph MAX_STEPS 0 (VStr (entry graph)) rs.

(** Number of turns of the loop in a run. *)
Definition visits (graph : GraphDef) (run_state : RunState) : nat :=
  let rs := set_status run_state "RUNNING" in
  let rs := _emit rs ("Run started for graph " +:+ graph_id graph +:+ ", entry="
                      +:+ entry graph) in
  match while_loop graph MAX_STEPS 0 (VStr (entry graph)) rs with
  | Exited _ v | Thrown _ v _ => v
  end.
End Engine.

(** ** Example inputs *)

Definition demo_repr (s : string) : string := "'" +:+ s +:+ "'".

(** A runtime with nothing registered. *)
Definition bare_runtime : Runtime :=
  {| tools := ∅; NODE_FUNCS := ∅; repr_str := demo_repr;
     py_eval := fun _ st => Raises st (RuntimeError "eval is not available");
     format_exc := fun e => "Traceback (most recent call last): " +:+ exn_msg e |}.

Definition node_name (i : nat) : string := "n" +:+ str_int (Z.of_nat i).

(** A node without a function. *)
Definition plain_node (k : string) (nxt : value) : NodeDef :=
  {| key := k; fn_name := VNone; next := nxt; meta := [] |}.

(** The node table [n0 -> n1 -> ... -> n(len-1)], each node without a
    function; the last node has the edge [last]. *)
Fixpoint chain_from (i len : nat) (last : value) : gmap string NodeDef :=
  match len with
  | O => ∅
  | S O => {[ node_name i := plain_node (node_name i) last ]}
  | S len' =>
      <[ node_name i := plain_node (node_name i) (VStr (node_name (S i))) ]>
        (chain_from (S i) len' last)
  end.

Definition chain_graph (len : nat) (last : value) : GraphDef :=
  {| graph_id := "g"; nodes := chain_from 0 len last; entry := node_name 0 |}.

(** ** The log subscriber of [app/main.py] *)

(** What [websocket_logs] sends: [{"log": msg}], [{"event": "done"}],
    [{"error": "Run not found"}]. *)
Inductive frame : Type :=
| LogFrame (msg : string)
| DoneFrame
| ErrorFrame.

(** One turn of the [while True] loop of [websocket_logs] on the queue
    [q]: nothing happens while [q.get()] waits on an empty queue;
    otherwise the head is taken, a frame is sent, and the flag tells
    whether the loop was left by [break]. *)
Definition websocket_logs_turn (q : list (option string)) (sent : list frame)
  : option (list (option string) * list frame * bool) :=
  match q with
  | [] => None
  | None :: q' => Some (q', (sent ++ [DoneFrame])%list, true)
  | Some msg :: q' => Some (q', (sent ++ [LogFrame msg])%list, false)
  end.

(** The engine task and one subscriber of its run, sharing the queue:
    the items the engine has yet to put, the queue, the frames sent so
    far and whether the subscriber has left its loop. *)
Record system : Type := {
  to_put : list (option string);
  queue : list (option string);
  sent : list frame;
  closed : bool
}.

(** The scheduler picks the engine (its next [put]) or the subscriber (a
    turn of its loop, or the turn in which [send_json] raises
    [WebSocketDisconnect] and the handler returns). *)
Inductive sys_step : system -> system -> Prop :=
| engine_put item rest q s c :
    sys_step {| to_put := item :: rest; queue := q; sent := s; closed := c |}
             {| to_put := rest; queue := q ++ [item]; sent := s; closed := c |}
| subscriber_turn p q q' s s' c' :
    websocket_logs_turn q s = Some (q', s', c') ->
    sys_step {| to_put := p; queue := q; sent := s; closed := false |}
             {| to_put := p; queue := q'; sent := s'; closed := c' |}
| subscriber_disconnect p item q s :
    sys_step {| to_put := p; queue := item :: q; sent := s; closed := false |}
             {| to_put := p; queue := q; sent := s; closed := true |}.

(** A run created by [run_graph_async] and its subscriber, before either
    has moved: the engine will put what [execute_graph_run] puts. *)
Definition system_start (R : Runtime) (graph : GraphDef) (run_state : RunState) : system :=
  {| to_put := log_queue (execute_graph_run R graph run_state).1;
     queue := []; sent := []; closed := false |}.

(** ** Objects and references: [run_graph_async] *)

Module Heap.

(** An object is named by its place in the store. *)
Abbreviation loc := nat.

(** A value as a variable or a container slot holds it: a scalar, or a
    reference to a mutable object. *)
Inductive ref : Type :=
| RNone
| RBool (b : bool)
| RInt (z : Z)
| RStr (s : string)
| RObj (l : loc).

Inductive object : Type :=
| ODict (d : list (string * ref))
| OList (l : list ref).

Abbreviation heap := (list object).

(** A new object takes the next free place. *)
Definition alloc (h : heap) (o : object) : heap * loc := ((h ++ [o])%list, length h).

(** [d.copy()]: a new dictionary with the same slots (a shallow copy). *)
Definition dict_copy (h : heap) (l : loc) : option (heap * loc) :=
  match h !! l with
  | Some (ODict d) => Some (alloc h (ODict d))
  | _ => None
  end.

Fixpoint slot_get (d : list (string * ref)) (k : string) : option ref :=
  match d with
  | [] => None
  | (k', v) :: d' => if String.eqb k k' then Some v else slot_get d' k
  end.

Fixpoint slot_set (d : list (string * ref)) (k : string) (v : ref)
  : list (string * ref) :=
  match d with
  | [] => [(k, v)]
  | (k', v') :: d' =>
      if String.eqb k k' then (k', v) :: d' else (k', v') :: slot_set d' k v
  end.

Fixpoint slot_del (d : list (string * ref)) (k : string) : option (list (string * ref)) :=
  match d with
  | [] => None
  | (k', v') :: d' =>
      if String.eqb k k' then Some d' else cons (k', v') <$> slot_del d' k
  end.

(** The run record, with its state held by reference. *)
Record Run : Type := {
  run_id : UUID;
  graph_id : UUID;
  state : loc;
  status : string
}.

(** [run_graph_async(gid, initial_state)]: [None] stands for
    [KeyError("Graph not found")] (or for the error of an [initial_state]
    that is not a mapping); otherwise the store after
    [initial_state.copy()] and the new run record ([run_id] is the
    [uuid4()] drawn). *)
Definition run_graph_async (GRAPHS : gmap UUID GraphDef) (h : heap)
    (rid gid : UUID) (initial_state : loc) : option (heap * Run) :=
  match GRAPHS !! gid with
  | None => None
  | Some graph =>
      match dict_copy h initial_state with
      | None => None
      | Some (h', l) =>
          Some (h', {| run_id := rid; graph_id := gid; state := l;
                       status := "PENDING" |})
      end
  end.

(** The object reached from [l] through the keys of [path]:
    [state[k1][k2]...]. *)
Fixpoint resolve (h : heap) (l : loc) (path : list string) : option loc :=
  match path with
  | [] => Some l
  | k :: path' =>
      match h !! l with
      | Some (ODict d) =>
          match slot_get d k with
          | Some (RObj l') => resolve h l' path'
          | _ => None
          end
      | _ => None
      end
  end.

(** In-place mutations made through the [state] reference, by the engine
    ([run_state.state.update(res)], [path = []]) or by a node or tool
    function, which receives the same reference:
    [state[k1]..[kn][k] = v], [del state[k1]..[kn][k]],
    [state[k1]..[kn].update(res)], [state[k1]..[kn].append(v)]. *)
Inductive mutation : Type :=
| SetItem (path : list string) (k : string) (v : ref)
| DelItem (path : list string) (k : string)
| Update (path : list string) (res : list (string * ref))
| Append (path : list string) (v : ref).

Definition path_of (m : mutation) : list string :=
  match m with
  | SetItem p _ _ | DelItem p _ | Update p _ | Append p _ => p
  end.

(** The mutated object, when the mutation applies to the object found. *)
Definition mutate (m : mutation) (o : object) : option object :=
  match m, o with
  | SetItem _ k v, ODict d => Some (ODict (slot_set d k v))
  | DelItem _ k, ODict d => ODict <$> slot_del d k
  | Update _ res, ODict d =>
      Some (ODict (fold_left (fun acc kv => slot_set acc (fst kv) (snd kv)) res d))
  | Append _ v, OList l => Some (OList (l ++ [v]))
  | _, _ => None
  end.

(** A mutation that cannot be carried out raises and leaves the store as
    it was. *)
Definition apply (l : loc) (h : heap) (m : mutation) : heap :=
  match resolve h l (path_of m) with
  | None => h
  | Some target =>
      match h !! target with
      | None => h
      | Some o =>
          match mutate m o with
          | None => h
          | Some o' => <[target := o']> h
          end
      end
  end.

Definition apply_all (l : loc) (h : heap) (ms : list mutation) : heap :=
  fold_left (apply l) ms h.

(** What a reference denotes: the value read through it, down to a
    given nesting depth. *)
Fixpoint read (depth : nat) (h : heap) (r : ref) : option value :=
  match r with
  | RNone => Some VNone
  | RBool b => Some (VBool b)
  | RInt z => Some (VInt z)
  | RStr s => Some (VStr s)
  | RObj l =>
      match depth with
      | O => None
      | S depth' =>
          match h !! l with
          | None => None
          | Some (OList xs) => VList <$> mapM (read depth' h) xs
          | Some (ODict d) =>
              VDict <$> mapM (fun kv => pair (fst kv) <$> read depth' h (snd kv)) d
          end
      end
  end.

End Heap.

(** Number of end-of-stream markers among queued items. *)
Definition markers (q : list (option string)) : nat :=
  length (filter (fun item => item = None) q).

(** A one-node graph, and the system at the end of a schedule in which the
    engine runs to completion before the subscriber drains the queue. *)
Definition single_node_graph : GraphDef := chain_graph 1 VNone.

Definition drained_system : system :=
  {| to_put := []; queue := [];
     sent := [LogFrame "Run started for graph g, entry=n0";
              LogFrame "Entering node: n0";
              LogFrame "Node 'n0' has no fn_name; skipping execution.";
              LogFrame "Node 'n0' completed. result=None";
              LogFrame "Run finished. status=DONE";
              DoneFrame];
     closed := true |}.

(** The function reference of a node resolves: to the tool [fn] (the flag
    is [true]) or to the node function [fn] (the flag is [false]). *)
Inductive resolves (R : Runtime) (nd : NodeDef) : bool -> PyFn -> Prop :=
| resolves_tool t fn :
    fn_name nd = VStr ("tool:" +:+ t) ->
    tools R !! t = Some fn ->
    resolves R nd true fn
| resolves_node_fn f fn :
    fn_name nd = VStr f ->
    f <> "" ->
    startswith f "tool:" = false ->
    NODE_FUNCS R !! f = Some fn ->
    resolves R nd false fn.

(** The function reference of a node names a tool or a node function that
    is not registered; the string is the message of the error raised. *)
Inductive unregistered (R : Runtime) (nd : NodeDef) : string -> Prop :=
| unregistered_tool t :
    fn_name nd = VStr ("tool:" +:+ t) ->
    tools R !! t = None ->
    unregistered R nd ("Tool '" +:+ t +:+ "' not found")
| unregistered_node_fn f :
    fn_name nd = VStr f ->
    f <> "" ->
    startswith f "tool:" = false ->
    NODE_FUNCS R !! f = None ->
    unregistered R nd ("Node function '" +:+ f +:+ "' not registered").

(** [_emit(run_state, f"Entering node: {node_key}")] after
    [run_state.current_node = node_key]. *)
Definition entered (rs : RunState) (k : string) : RunState :=
  _emit (set_current_node rs (VStr k)) ("Entering node: " +:+ k).

(** A function that leaves the state alone and returns
    [{"x": 1, "next": "B"}], registered both as the node function ["f"]
    and as the tool ["t"]. *)
Definition directive_fn : PyFn :=
  fun st => Returns st (VDict [("x", VInt 1); ("next", VStr "B")]).

Definition directive_runtime : Runtime :=
  {| tools := {[ "t" := directive_fn ]};
     NODE_FUNCS := {[ "f" := directive_fn ]};
     repr_str := demo_repr;
     py_eval := fun _ st => Raises st (RuntimeError "eval is not available");
     format_exc := fun e => "Traceback (most recent call last): " +:+ exn_msg e |}.

Definition fn_node (k f : string) (nxt : value) : NodeDef :=
  {| key := k; fn_name := VStr f; next := nxt; meta := [] |}.

Definition fresh_run (st : dict) : RunState := RunState_new "r" "g" st.

(** [A -> B] with a branch edge out of [A]. *)
Definition branch_graph : GraphDef :=
  {| graph_id := "g";
     nodes := {[ "A" := plain_node "A" (VDict [("true", VStr "B"); ("false", VStr "C")]);
                 "B" := plain_node "B" VNone;
                 "C" := plain_node "C" VNone ]};
     entry := "A" |}.

(** A node whose function is registered nowhere. *)
Definition orphan_graph : GraphDef :=
  {| graph_id := "g";
     nodes := {[ "A" := fn_node "A" "tool:absent" (VStr "B");
                 "B" := plain_node "B" VNone ]};
     entry := "A" |}.

(** [A -> B -> A]: a graph that cycles for ever. *)
Definition cycle_graph : GraphDef :=
  {| graph_id := "g";
     nodes := {[ "A" := plain_node "A" (VStr "B"); "B" := plain_node "B" (VStr "A") ]};
     entry := "A" |}.

(** A caller whose initial state is [{"xs": [1]}]: the mapping is object 0
    and the list it holds is object 1. *)
Definition caller_heap : Heap.heap :=
  [Heap.ODict [("xs", Heap.RObj 1)]; Heap.OList [Heap.RInt 1]].

Definition one_graph : gmap UUID GraphDef := {[ "g" := single_node_graph ]}.

(** Two nodes that call [directive_fn], [A] as a node function and [T] as
    a tool. *)
Definition directive_graph : GraphDef :=
  {| graph_id := "g";
     nodes := {[ "A" := fn_node "A" "f" VNone;
                 "T" := fn_node "T" "tool:t" VNone;
                 "B" := plain_node "B" VNone ]};
     entry := "A" |}.

(** ** The registries: [register_tool], [register_node] *)

(** [register_tool(name)(fn)]: [tools[name] = fn]. *)
Definition register_tool (name : string) (fn : PyFn) (reg : gmap string PyFn)
  : gmap string PyFn := <[name := fn]> reg.

(** [register_node(name)(fn)]: [NODE_FUNCS[name] = fn]. *)
Definition register_node (name : string) (fn : PyFn) (reg : gmap string PyFn)
  : gmap string PyFn := <[name := fn]> reg.

(** The runtime after a registration in either namespace. *)
Definition with_tool (R : Runtime) (name : string) (fn : PyFn) : Runtime :=
  {| tools := register_tool name fn (tools R); NODE_FUNCS := NODE_FUNCS R;
     repr_str := repr_str R; py_eval := py_eval R; format_exc := format_exc R |}.

Definition with_node (R : Runtime) (name : string) (fn : PyFn) : Runtime :=
  {| tools := tools R; NODE_FUNCS := register_node name fn (NODE_FUNCS R);
     repr_str := repr_str R; py_eval := py_eval R; format_exc := format_exc R |}.

(** ** The example tool [simple_issue_counter] *)

(** [len(obj)]: of a string (in characters), a list or a dictionary; the
    other values have no length. *)
Definition py_len (v : value) : exn + nat :=
  match v with
  | VStr s => inr (str_len s)
  | VList l => inr (length l)
  | VDict d => inr (length d)
  | _ => inl (TypeError ("object of type '" +:+ type_name v +:+ "' has no len()"))
  end.

(** [d.get(k, default)] *)
Definition dict_get_default (d : dict) (k : string) (dflt : value) : value :=
  if dict_has d k then dict_get d k else dflt.

Definition simple_issue_counter : PyFn :=
  fun state =>
    let cnt := 0%Z in
    match (if dict_has state "basic_issues"
           then py_len (dict_get_default state "basic_issues" (VList []))
           else inr 0%nat) with
    | inl e => Raises state e
    | inr n =>
        let cnt := (cnt + Z.of_nat n)%Z in
        let cnt := if truthy (dict_get state "has_high_complexity")
                   then (cnt + 1)%Z else cnt in
        Returns (dict_set state "issue_count" (VInt cnt))
                (VDict [("issue_count", VInt cnt)])
    end.

(** ** [create_graph], [get_graph] *)

Definition AttributeError (msg : string) : exn :=
  {| exn_msg := msg; exn_is_Exception := true |}.

(** What the body of the [for] loop makes of one item of
    [definition["nodes"]]: a node; or a node whose [meta] is not a mapping,
    which the declared type of [NodeDef.meta] does not describe; or the
    [AttributeError] of [info.get] on an [info] that is not a mapping. *)
Inductive node_parse : Type :=
| NodeOk (nd : NodeDef)
| NodeUntyped
| NodeRaises (e : exn).

Definition parse_node (k : string) (info : value) : node_parse :=
  match info with
  | VDict i =>
      let fn_name := dict_get i "fn" in
      let next_ := dict_get i "next" in
      let meta :=
        let m := dict_get_default i "meta" (VDict []) in
        if truthy m then m else VDict [] in
      match meta with
      | VDict m => NodeOk {| key := k; fn_name := fn_name; next := next_; meta := m |}
      | _ => NodeUntyped
      end
  | _ =>
      NodeRaises (AttributeError ("'" +:+ type_name info
                                  +:+ "' object has no attribute 'get'"))
  end.

(** The [for key, info in ....items()] loop: the table built so far and
    whether every node so far fits the declared types; the loop stops at
    the first exception. *)
Fixpoint build_nodes (items : dict) (acc : gmap string NodeDef) (typed : bool)
  : exn + (gmap string NodeDef * bool) :=
  match items with
  | [] => inr (acc, typed)
  | (k, info) :: items' =>
      match parse_node k info with
      | NodeOk nd => build_nodes items' (<[k := nd]> acc) typed
      | NodeUntyped => build_nodes items' acc false
      | NodeRaises e => inl e
      end
  end.

(** How [create_graph] ends: the store with the new graph and its id; an
    exception (the store is as it was); or a graph stored with a [meta] or
    an [entry] outside the declared types, which this development does not
    describe. *)
Inductive create_outcome : Type :=
| Created (GRAPHS : gmap UUID GraphDef) (gid : UUID)
| CreateRaises (e : exn)
| CreateUntyped.

(** [create_graph(definition)]; [gid] is the [uuid4()] drawn. *)
Definition create_graph (GRAPHS : gmap UUID GraphDef) (gid : UUID) (definition : dict)
  : create_outcome :=
  match dict_get_default definition "nodes" (VDict []) with
  | VDict items =>
      match build_nodes items ∅ true with
      | inl e => CreateRaises e
      | inr (table, typed) =>
          match dict_get_default definition "entry" (VStr ""), typed with
          | VStr e, true =>
              let graph := {| graph_id := gid; nodes := table; entry := e |} in
              Created (<[gid := graph]> GRAPHS) gid
          | _, _ => CreateUntyped
          end
      end
  | other =>
      CreateRaises (AttributeError ("'" +:+ type_name other
                                    +:+ "' object has no attribute 'items'"))
  end.

Definition get_graph (GRAPHS : gmap UUID GraphDef) (gid : UUID) : option GraphDef :=
  GRAPHS !! gid.

(** ** More example inputs *)

(** A graph definition as [POST /graph/create] receives it. *)
Definition demo_definition : dict :=
  [("entry", VStr "a");
   ("nodes", VDict [("a", VDict [("fn", VStr "tool:simple_issue_counter");
                                 ("next", VStr "b")]);
                    ("b", VDict [("fn", VNone); ("meta", VNone)])])].

Definition counter_runtime : Runtime :=
  with_tool bare_runtime "simple_issue_counter" simple_issue_counter.

(** A function that raises after writing to the state. *)
Definition failing_fn : PyFn :=
  fun st => Raises (dict_set st "seen" (VBool true)) (RuntimeError "boom").

Definition failing_runtime : Runtime := with_node bare_runtime "f" failing_fn.

(** A runtime whose [eval] reads [state["flag"]], and raises when it is
    absent. *)
Definition flag_runtime : Runtime :=
  {| tools := ∅; NODE_FUNCS := ∅; repr_str := demo_repr;
     py_eval := fun _ st =>
       if dict_has st "flag" then Returns st (dict_get st "flag")
       else Raises st (RuntimeError "'flag'");
     format_exc := fun e => "Traceback (most recent call last): " +:+ exn_msg e |}.

Definition condition_node : NodeDef :=
  {| key := "A"; fn_name := VNone;
     next := VDict [("true", VStr "B"); ("false", VStr "C")];
     meta := [("condition", VStr "state['flag']")] |}.

Definition condition_graph : GraphDef :=
  {| graph_id := "g";
     nodes := {[ "A" := condition_node; "B" := plain_node "B" VNone;
                 "C" := plain_node "C" VNone ]};
     entry := "A" |}.

(** ** Notions used in the statements *)

(** [emitted rs rs' msgs]: from [rs] to [rs'] the lines [msgs] were
    emitted, and nothing else touched the log list or the queue. *)
Definition emitted (rs rs' : RunState) (msgs : list string) : Prop :=
  logs rs' = (logs rs ++ msgs)%list /\
  log_queue rs' = (log_queue rs ++ map Some msgs)%list.

(** Some lines were emitted, whichever they are. *)
Definition grows (rs rs' : RunState) : Prop := exists msgs, emitted rs rs' msgs.

(** What a part of the loop body leaves behind, however it ends. *)
Definition step_rs {A : Type} (s : step A) : RunState :=
  match s with Ok rs _ | Err rs _ => rs end.

Definition flow_rs (f : flow) : RunState :=
  match f with Next rs _ | Break rs | Raise rs _ => rs end.

Definition loop_end_rs (e : loop_end) : RunState :=
  match e with Exited rs _ | Thrown rs _ _ => rs end.

Definition loop_end_visited (e : loop_end) : nat :=
  match e with Exited _ v | Thrown _ v _ => v end.

(** What holds of the engine and its subscriber at every moment, when the
    engine is to put the lines [L] and then the marker: either the
    subscriber has been sent a prefix of [L] and the rest is still to
    come (or was dropped by a disconnection), or it has been sent all of
    [L] and the done frame. *)
Definition stream_inv (L : list string) (sys : system) : Prop :=
  (exists got dropped,
      sent sys = map LogFrame got /\
      (map Some got ++ dropped ++ queue sys ++ to_put sys)%list
        = (map Some L ++ [None])%list /\
      (closed sys = false -> dropped = [])) \/
  (sent sys = (map LogFrame L ++ [DoneFrame])%list /\ closed sys = true).

(** Closed goals about concrete runs are settled by evaluation. *)
Ltac evaluate :=
  repeat match goal with |- _ /\ _ => split end; vm_compute; reflexivity.

(** At most [n] lines were emitted from [rs] to [rs']. *)
Definition grows_by (n : nat) (rs rs' : RunState) : Prop :=
  exists msgs, emitted rs rs' msgs /\ length msgs <= n.

(** The fields of a run record that the engine never writes after the
    status is set to RUNNING, until the loop is over. *)
Definition same_ids (rs rs' : RunState) : Prop :=
  run_id rs' = run_id rs /\ run_graph_id rs' = run_graph_id rs /\ status rs' = status rs.

(** Every node of the graph is without a function and has a direct edge
    to a node of the graph. *)
Definition endless (g : GraphDef) : Prop :=
  forall k nd, nodes g !! k = Some nd ->
    truthy (fn_name nd) = false /\
    exists k', next nd = VStr k' /\ k' <> "" /\ is_Some (nodes g !! k').

(** What the tool branch makes of the outcome of the call. *)
Definition tool_step (rs : RunState) (o : outcome) : step value :=
  match o with
  | Raises st e => Err (set_state rs st) e
  | Returns st (VDict d) => Ok (set_state rs (dict_update st d)) (VDict d)
  | Returns st res => Ok (set_state rs st) res
  end.

(** A graph entered at a node that refers to the tool ["t"]. *)
Definition tool_entry_graph : GraphDef :=
  {| graph_id := "g";
     nodes := {[ "T" := fn_node "T" "tool:t" VNone; "B" := plain_node "B" VNone ]};
     entry := "T" |}.

(** * Properties *)

(** ** Log lines are only ever appended, to the list and to the queue alike *)


Lemma emitted_refl rs : emitted rs rs [].
Proof. split; simpl; by rewrite app_nil_r. Qed.

Lemma emitted_trans rs1 rs2 rs3 m1 m2 :
  emitted rs1 rs2 m1 -> emitted rs2 rs3 m2 -> emitted rs1 rs3 (m1 ++ m2).
Proof.
  intros [Hl1 Hq1] [Hl2 Hq2]. split.
  - by rewrite Hl2, Hl1, app_assoc.
  - by rewrite Hq2, Hq1, map_app, app_assoc.
Qed.

Lemma emitted_emit rs msg : emitted rs (_emit rs msg) [msg].
Proof. by split. Qed.

Lemma emitted_set_status rs s : emitted rs (set_status rs s) [].
Proof. split; simpl; by rewrite app_nil_r. Qed.

Lemma emitted_set_state rs st : emitted rs (set_state rs st) [].
Proof. split; simpl; by rewrite app_nil_r. Qed.

Lemma emitted_set_current_node rs k : emitted rs (set_current_node rs k) [].
Proof. split; simpl; by rewrite app_nil_r. Qed.


Lemma grows_refl rs : grows rs rs.
Proof. eexists. apply emitted_refl. Qed.

Lemma grows_trans rs1 rs2 rs3 : grows rs1 rs2 -> grows rs2 rs3 -> grows rs1 rs3.
Proof. intros [m1 H1] [m2 H2]. eexists. eapply emitted_trans; eauto. Qed.

Lemma grows_emit rs rs' msg : grows rs rs' -> grows rs (_emit rs' msg).
Proof. intros H. eapply grows_trans; [exact H|]. eexists. apply emitted_emit. Qed.

Lemma grows_set_status rs rs' s : grows rs rs' -> grows rs (set_status rs' s).
Proof. intros H. eapply grows_trans; [exact H|]. eexists. apply emitted_set_status. Qed.

Lemma grows_set_state rs rs' st : grows rs rs' -> grows rs (set_state rs' st).
Proof. intros H. eapply grows_trans; [exact H|]. eexists. apply emitted_set_state. Qed.

Lemma grows_set_current_node rs rs' k :
  grows rs rs' -> grows rs (set_current_node rs' k).
Proof.
  intros H. eapply grows_trans; [exact H|]. eexists. apply emitted_set_current_node.
Qed.

Create HintDb trace.
#[local] Hint Resolve grows_refl grows_emit grows_set_status grows_set_state
  grows_set_current_node : trace.


Section Trace.
Variable R : Runtime.

Lemma call_tool_grows s rs0 rs :
  grows rs0 rs -> grows rs0 (step_rs (call_tool R s rs)).
Proof.
  intros H. unfold call_tool.
  destruct (split_colon_1 s); simpl; [|done].
  destruct (tools R !! _) as [tool|]; simpl; [|done].
  destruct (_call_fn tool (state rs)) as [st [] | st e]; simpl; auto with trace.
Qed.

Lemma call_node_fn_grows f rs0 rs :
  grows rs0 rs -> grows rs0 (step_rs (call_node_fn R f rs)).
Proof.
  intros H. unfold call_node_fn.
  destruct (table_get _ _) as [e | [fn|]]; simpl; [done| |done].
  destruct (_call_fn fn (state rs)) as [st [] | st e]; simpl; auto with trace.
  destruct (dict_has d "next"); simpl; auto with trace.
Qed.

Lemma execute_fn_grows nd k rs0 rs :
  grows rs0 rs -> grows rs0 (step_rs (execute_fn R nd k rs)).
Proof.
  intros H. unfold execute_fn.
  destruct (truthy (fn_name nd)); [|simpl; auto with trace].
  destruct (fn_name nd) as [| b | z | s | l | d];
    try (apply call_node_fn_grows; exact H).
  destruct (startswith s "tool:");
    [apply call_tool_grows | apply call_node_fn_grows]; exact H.
Qed.

Lemma static_next_grows nd rs0 rs :
  grows rs0 rs -> grows rs0 (step_rs (static_next R nd rs)).
Proof.
  intros H. unfold static_next.
  destruct (truthy (next nd)); simpl; [|done].
  destruct (next nd); simpl; try done.
  destruct (dict_has (meta nd) "condition").
  - destruct (py_eval R _ _) as [st v | st e]; simpl; auto with trace.
    destruct (exn_is_Exception e); simpl; auto with trace.
  - destruct (flag_is_true R _); simpl; done.
Qed.

Lemma decide_next_grows nd result rs0 rs :
  grows rs0 rs -> grows rs0 (step_rs (decide_next R nd result rs)).
Proof.
  intros H. unfold decide_next.
  destruct result; try by apply static_next_grows.
  destruct (dict_has d "next"); simpl; [auto with trace|by apply static_next_grows].
Qed.

Lemma stop_override_grows nk rs0 rs :
  grows rs0 rs -> grows rs0 (stop_override nk rs).1.
Proof.
  intros H. unfold stop_override.
  destruct (is_True _); simpl; auto with trace.
Qed.

Lemma loop_body_grows g k rs0 rs :
  grows rs0 rs -> grows rs0 (flow_rs (loop_body R g k rs)).
Proof.
  intros H. unfold loop_body.
  destruct (table_get (nodes g) k) as [e | [nd|]]; simpl; auto with trace.
  match goal with |- context [execute_fn R nd k ?r] =>
    assert (He : grows rs0 (step_rs (execute_fn R nd k r)))
      by (apply execute_fn_grows; auto with trace);
    destruct (execute_fn R nd k r) as [rs1 result | rs1 e] end; simpl in *; [|done].
  match goal with |- context [decide_next R nd result ?r] =>
    assert (Hd : grows rs0 (step_rs (decide_next R nd result r)))
      by (apply decide_next_grows; auto with trace);
    destruct (decide_next R nd result r) as [rs2 nk | rs2 e] end; simpl in *; [|done].
  pose proof (stop_override_grows nk rs0 rs2 Hd) as Hs.
  destruct (stop_override nk rs2); simpl in *. done.
Qed.

Lemma while_loop_grows g left : forall visited k rs0 rs,
  grows rs0 rs -> grows rs0 (loop_end_rs (while_loop R g left visited k rs)).
Proof.
  induction left as [|left IH]; intros visited k rs0 rs H.
  - destruct k; simpl; done.
  - assert (Hstep : grows rs0
      (loop_end_rs match loop_body R g k rs with
                   | Next rs nk => while_loop R g left (S visited) nk rs
                   | Break rs => Exited rs (S visited)
                   | Raise rs e => Thrown rs (S visited) e
                   end)).
    { pose proof (loop_body_grows g k rs0 rs H) as Hb.
      destruct (loop_body R g k rs); simpl in *; auto. }
    destruct k; simpl; done.
Qed.

Lemma after_loop_grows rs0 rs v : grows rs0 rs -> grows rs0 (after_loop rs v).
Proof.
  intros H. unfold after_loop. destruct (_ <=? _)%nat; auto with trace.
Qed.

Lemma on_exception_grows rs0 rs e : grows rs0 rs -> grows rs0 (on_exception R rs e).
Proof. intros H. unfold on_exception. auto with trace. Qed.

(** The [finally] clause. *)
Lemma queue_put_marker rs0 rs :
  grows rs0 rs ->
  exists msgs,
    logs (queue_put rs None) = (logs rs0 ++ msgs)%list /\
    log_queue (queue_put rs None) = (log_queue rs0 ++ map Some msgs ++ [None])%list.
Proof.
  intros (msgs & Hl & Hq). exists msgs. unfold queue_put; simpl.
  split; [done|]. by rewrite Hq, app_assoc.
Qed.

(** The whole [try] statement: some lines, then the marker. *)
Lemma try_run_trace g left visited k rs :
  exists msgs,
    logs (try_run R g left visited k rs).1 = (logs rs ++ msgs)%list /\
    log_queue (try_run R g left visited k rs).1
      = (log_queue rs ++ map Some msgs ++ [None])%list.
Proof.
  unfold try_run.
  pose proof (while_loop_grows g left visited k rs rs (grows_refl rs)) as Hw.
  destruct (while_loop R g left visited k rs) as [rs1 v | rs1 v e]; simpl in Hw.
  - apply queue_put_marker. by apply after_loop_grows.
  - destruct (exn_is_Exception e); apply queue_put_marker;
      [by apply on_exception_grows | done].
Qed.

Lemma execute_graph_run_trace g rs :
  exists msgs,
    logs (execute_graph_run R g rs).1 = (logs rs ++ msgs)%list /\
    log_queue (execute_graph_run R g rs).1
      = (log_queue rs ++ map Some msgs ++ [None])%list.
Proof.
  unfold execute_graph_run.
  match goal with |- context [try_run R g _ _ _ ?r] =>
    destruct (try_run_trace g MAX_STEPS 0 (VStr (entry g)) r) as (msgs & Hl & Hq);
    set (r0 := r) in * end.
  exists ((["Run started for graph " +:+ graph_id g +:+ ", entry=" +:+ entry g]
           ++ msgs)%list).
  rewrite Hl, Hq. subst r0. simpl. split; by rewrite <- ?app_assoc.
Qed.
End Trace.

(** ** The end-of-stream marker *)

Lemma markers_app q1 q2 : markers (q1 ++ q2) = markers q1 + markers q2.
Proof. unfold markers. by rewrite filter_app, length_app. Qed.

Lemma markers_messages msgs : markers (map Some msgs) = 0.
Proof.
  induction msgs as [|m msgs IH]; [done|].
  unfold markers in *. simpl. by rewrite filter_cons_False.
Qed.

(** C8. Whatever the graph, the registries and the run state, and however
    the run ends (the loop ran out, the step bound was hit, an exception
    was caught by the handler or escaped it), what [execute_graph_run]
    pushes onto the run's queue is the emitted lines followed by the
    end-of-stream marker: the pushed items hold exactly one marker, and it
    is the last of them. *)
Theorem end_of_stream_marker_exactly_once (R : Runtime) (g : GraphDef) (rs : RunState) :
  exists pushed,
    log_queue (execute_graph_run R g rs).1 = (log_queue rs ++ pushed)%list /\
    markers pushed = 1 /\
    last pushed = Some None.
Proof.
  destruct (execute_graph_run_trace R g rs) as (msgs & _ & Hq).
  exists (map Some msgs ++ [None])%list. split; [done|]. split.
  - by rewrite markers_app, markers_messages.
  - apply last_snoc.
Qed.

(** ** The subscriber *)

Lemma messages_then_marker_inj (a b : list string) (r : list (option string)) :
  (map Some a ++ None :: r)%list = (map Some b ++ [None])%list -> a = b /\ r = [].
Proof.
  revert b. induction a as [|x a IH]; intros [|y b] H; simpl in *.
  - by inversion H.
  - discriminate.
  - discriminate.
  - inversion H as [[Hx Hr]]. destruct (IH b Hr) as [-> ->]. done.
Qed.

Lemma not_done_in_logs (msgs : list string) : DoneFrame ∉ map LogFrame msgs.
Proof.
  induction msgs as [|m msgs IH]; simpl.
  - apply not_elem_of_nil.
  - intros [Hd | Hd]%elem_of_cons; [discriminate | by apply IH].
Qed.


Lemma stream_inv_step L sys sys' :
  stream_inv L sys -> sys_step sys sys' -> stream_inv L sys'.
Proof.
  intros Hinv Hstep. destruct Hstep as [item rest q s c | p q q' s s' c' Hturn | p item q s].
  - destruct Hinv as [(got & dropped & Hs & Heq & Hc) | [Hs Hc]]; simpl in *.
    + left. exists got, dropped. simpl. split; [done|]. split; [|done].
      by rewrite <- (app_assoc q [item] rest).
    + right. done.
  - destruct Hinv as [(got & dropped & Hs & Heq & Hc) | [Hs Hc]]; simpl in *;
      [|discriminate].
    rewrite (Hc eq_refl) in Heq. simpl in Heq.
    destruct q as [|[msg|] q]; simpl in Hturn; [discriminate| |];
      inversion Hturn; subst q' s' c'; clear Hturn.
    + left. exists (got ++ [msg])%list, []. simpl. split; [by rewrite Hs, map_app|].
      split; [|done]. rewrite map_app, <- app_assoc. done.
    + right. simpl. apply messages_then_marker_inj in Heq as [-> _]. by rewrite Hs.
  - destruct Hinv as [(got & dropped & Hs & Heq & Hc) | [Hs Hc]]; simpl in *;
      [|discriminate].
    rewrite (Hc eq_refl) in Heq. simpl in Heq.
    left. exists got, [item]. simpl. done.
Qed.

Lemma stream_inv_reachable L sys sys' :
  stream_inv L sys -> rtc sys_step sys sys' -> stream_inv L sys'.
Proof.
  intros Hinv Hrtc. induction Hrtc as [|x y z Hstep _ IH]; [done|].
  apply IH. by eapply stream_inv_step.
Qed.

Lemma stream_inv_start R g rid gid st :
  stream_inv (logs (execute_graph_run R g (RunState_new rid gid st)).1)
             (system_start R g (RunState_new rid gid st)).
Proof.
  destruct (execute_graph_run_trace R g (RunState_new rid gid st)) as (msgs & Hl & Hq).
  left. exists [], []. unfold system_start. simpl in *.
  by rewrite Hq, Hl.
Qed.

(** C9. [_emit] appends its message to the log list and puts the same
    message on the queue, so both grow by the same lines in the same
    order; and in every interleaving of the engine with the subscriber of
    its run, whenever it starts reading, a subscriber that has been sent
    the done frame has been sent, before it, exactly the lines of the
    run's final log list, in their order. *)
Theorem subscriber_receives_final_logs (R : Runtime) (g : GraphDef) (rid gid : UUID)
    (st : dict) (sys : system)
    (Hreach : rtc sys_step (system_start R g (RunState_new rid gid st)) sys)
    (Hdone : DoneFrame ∈ sent sys) :
  (forall rs msg,
      logs (_emit rs msg) = (logs rs ++ [msg])%list /\
      log_queue (_emit rs msg) = (log_queue rs ++ [Some msg])%list) /\
  sent sys
    = (map LogFrame (logs (execute_graph_run R g (RunState_new rid gid st)).1)
         ++ [DoneFrame])%list.
Proof.
  split; [done|].
  pose proof (stream_inv_reachable _ _ _ (stream_inv_start R g rid gid st) Hreach) as Hinv.
  destruct Hinv as [(got & dropped & Hs & _) | [Hs _]]; [|done].
  rewrite Hs in Hdone. by apply not_done_in_logs in Hdone.
Qed.

Lemma single_node_schedule :
  rtc sys_step (system_start bare_runtime single_node_graph (RunState_new "r" "g" []))
      drained_system.
Proof.
  replace (system_start bare_runtime single_node_graph (RunState_new "r" "g" []))
    with {| to_put := [Some "Run started for graph g, entry=n0";
                       Some "Entering node: n0";
                       Some "Node 'n0' has no fn_name; skipping execution.";
                       Some "Node 'n0' completed. result=None";
                       Some "Run finished. status=DONE";
                       None];
            queue := []; sent := []; closed := false |}
    by (vm_compute; reflexivity).
  do 6 (eapply rtc_l; [apply engine_put|]). simpl.
  do 6 (eapply rtc_l; [apply subscriber_turn; reflexivity|]). simpl.
  apply rtc_refl.
Defined.

Lemma subscriber_receives_final_logs_witness :
  sent drained_system
    = (map LogFrame
         (logs (execute_graph_run bare_runtime single_node_graph
                  (RunState_new "r" "g" [])).1)
         ++ [DoneFrame])%list.
Proof.
  apply (subscriber_receives_final_logs bare_runtime single_node_graph "r" "g" []
           drained_system single_node_schedule).
  unfold drained_system; simpl. do 5 apply list_elem_of_further. apply list_elem_of_here.
Defined.

(** ** One turn of the loop *)

Lemma table_get_str {A : Type} (m : gmap string A) (k : string) :
  table_get m (VStr k) = inr (m !! k).
Proof. done. Qed.

Lemma loop_body_found R g k nd rs :
  nodes g !! k = Some nd ->
  loop_body R g (VStr k) rs =
    match execute_fn R nd (VStr k) (entered rs k) with
    | Err rs e => Raise rs e
    | Ok rs result =>
        let rs := _emit rs ("Node '" +:+ k +:+ "' completed. result="
                            +:+ _shortrepr (repr_str R) result) in
        match decide_next R nd result rs with
        | Err rs e => Raise rs e
        | Ok rs next_node =>
            let (rs, next_node) := stop_override next_node rs in
            Next rs next_node
        end
    end.
Proof. intros H. unfold loop_body. rewrite table_get_str, H. done. Qed.

Lemma loop_body_missing R g k rs :
  nodes g !! k = None ->
  loop_body R g (VStr k) rs =
    Break (_emit (set_current_node rs (VStr k)) ("Node '" +:+ k +:+ "' not found. Stopping.")).
Proof. intros H. unfold loop_body. rewrite table_get_str, H. done. Qed.

Lemma split_colon_1_tool t : split_colon_1 ("tool:" +:+ t) = Some t.
Proof. done. Qed.

Lemma startswith_tool t : startswith ("tool:" +:+ t) "tool:" = true.
Proof. done. Qed.

Lemma truthy_str f : f <> "" -> truthy (VStr f) = true.
Proof. intros H. simpl. destruct (String.eqb_spec f ""); done. Qed.

Lemma state_emit rs msg : state (_emit rs msg) = state rs.
Proof. done. Qed.

(** ** C6: the stop flag *)

Lemma stop_override_spec nk rs :
  stop_override nk rs =
    if is_True (dict_get (state rs) "stop")
    then (_emit rs "State requested stop -> finishing run.", VNone)
    else (rs, nk).
Proof. done. Qed.

Lemma is_True_spec v : is_True v = true <-> v = VBool true.
Proof. destruct v as [| [] | | | |]; simpl; split; intros; congruence. Qed.

(** C6. When a turn of the loop completes and leaves the stop flag of the
    run's state at the boolean true, the next node key of that turn is
    [None], whatever the function returned and whatever the node's edge
    is; the stop line is the last line of the turn, and the loop ends
    with that turn. *)
Theorem stop_flag_ends_run (R : Runtime) (g : GraphDef) (k : value)
    (rs rs' : RunState) (nk : value)
    (Hturn : loop_body R g k rs = Next rs' nk)
    (Hstop : dict_get (state rs') "stop" = VBool true) :
  nk = VNone /\
  last (logs rs') = Some "State requested stop -> finishing run." /\
  (forall left visited,
      k <> VNone -> while_loop R g (S left) visited k rs = Exited rs' (S visited)).
Proof.
  assert (Hnk : nk = VNone /\
                last (logs rs') = Some "State requested stop -> finishing run.").
  { unfold loop_body in Hturn.
    destruct (table_get (nodes g) k) as [e | [nd|]]; try discriminate.
    destruct (execute_fn R nd k _) as [rs1 result | rs1 e]; try discriminate.
    destruct (decide_next R nd result _) as [rs2 nk0 | rs2 e]; try discriminate.
    rewrite stop_override_spec in Hturn.
    destruct (is_True (dict_get (state rs2) "stop")) eqn:Hflag.
    - inversion Hturn; subst. split; [done|]. simpl. apply last_snoc.
    - inversion Hturn; subst. apply is_True_spec in Hstop. congruence. }
  destruct Hnk as [-> Hlast]. split; [done|]. split; [done|].
  intros left visited Hk.
  destruct k; try done; simpl; rewrite Hturn; by destruct left.
Qed.

Lemma stop_flag_ends_run_witness :
  loop_body bare_runtime branch_graph (VStr "A") (fresh_run [("stop", VBool true)])
    = Next (flow_rs (loop_body bare_runtime branch_graph (VStr "A")
                       (fresh_run [("stop", VBool true)]))) VNone /\
  while_loop bare_runtime branch_graph 1000 0 (VStr "A") (fresh_run [("stop", VBool true)])
    = Exited (flow_rs (loop_body bare_runtime branch_graph (VStr "A")
                         (fresh_run [("stop", VBool true)]))) 1.
Proof.
  assert (Hturn : loop_body bare_runtime branch_graph (VStr "A")
                    (fresh_run [("stop", VBool true)])
                  = Next (flow_rs (loop_body bare_runtime branch_graph (VStr "A")
                                     (fresh_run [("stop", VBool true)]))) VNone)
    by (vm_compute; reflexivity).
  split; [exact Hturn|].
  apply (stop_flag_ends_run bare_runtime branch_graph (VStr "A") _ _ VNone Hturn);
    [vm_compute; reflexivity | discriminate].
Defined.

(** ** C7: unregistered functions *)

Lemma execute_fn_unregistered R nd k msg rs :
  unregistered R nd msg ->
  execute_fn R nd k rs = Err rs (RuntimeError msg).
Proof.
  intros [t Hfn Hnone | f Hfn Hne Hpre Hnone]; unfold execute_fn; rewrite Hfn.
  - rewrite truthy_str by done. rewrite startswith_tool.
    unfold call_tool. rewrite split_colon_1_tool. cbv iota beta. by rewrite Hnone.
  - rewrite truthy_str by done. rewrite Hpre.
    unfold call_node_fn. rewrite table_get_str. by rewrite Hnone.
Qed.

(** C7. When the loop reaches a node whose function reference names a
    tool missing from [tools] or a node function missing from
    [NODE_FUNCS], the turn raises [RuntimeError] with the message naming
    the missing function right after the line that announces the node;
    the run then ends FAILED, with one more log line, which carries that
    message, and no other node is entered. *)
Theorem unregistered_function_fails (R : Runtime) (g : GraphDef) (k : string)
    (nd : NodeDef) (msg : string) (rs : RunState) (left visited : nat)
    (Hnode : nodes g !! k = Some nd)
    (Hmissing : unregistered R nd msg) :
  while_loop R g (S left) visited (VStr k) rs
    = Thrown (entered rs k) (S visited) (RuntimeError msg) /\
  let out := try_run R g (S left) visited (VStr k) rs in
  out.2 = None /\
  status out.1 = "FAILED" /\
  current_node out.1 = VStr k /\
  state out.1 = state rs /\
  logs out.1 = (logs rs ++
                ["Entering node: " +:+ k;
                 "Execution failed: " +:+ msg +:+ LF
                   +:+ format_exc R (RuntimeError msg)])%list.
Proof.
  assert (Hloop : while_loop R g (S left) visited (VStr k) rs
                  = Thrown (entered rs k) (S visited) (RuntimeError msg)).
  { simpl. rewrite (loop_body_found R g k nd rs Hnode).
    by rewrite (execute_fn_unregistered R nd (VStr k) msg _ Hmissing). }
  split; [exact Hloop|].
  unfold try_run. rewrite Hloop. simpl.
  repeat split; try done. by rewrite <- app_assoc.
Qed.

Lemma unregistered_function_fails_witness :
  status (execute_graph_run bare_runtime orphan_graph (fresh_run [])).1 = "FAILED" /\
  logs (execute_graph_run bare_runtime orphan_graph (fresh_run [])).1
    = ["Run started for graph g, entry=A";
       "Entering node: A";
       "Execution failed: Tool 'absent' not found" +:+ LF
         +:+ "Traceback (most recent call last): Tool 'absent' not found"].
Proof.
  assert (Hnode : nodes orphan_graph !! "A" = Some (fn_node "A" "tool:absent" (VStr "B")))
    by (vm_compute; reflexivity).
  assert (Hmissing : unregistered bare_runtime (fn_node "A" "tool:absent" (VStr "B"))
                       "Tool 'absent' not found")
    by (apply (unregistered_tool _ _ "absent"); reflexivity).
  destruct (unregistered_function_fails bare_runtime orphan_graph "A" _ _
              (_emit (set_status (fresh_run []) "RUNNING")
                     "Run started for graph g, entry=A")
              999 0 Hnode Hmissing)
    as (_ & _ & Hstatus & _ & _ & Hlogs).
  split; [exact Hstatus | exact Hlogs].
Defined.

(** ** C5: the fallback branch *)

(** A decimal numeral starts with a digit or a sign, never with a [t]. *)
Lemma lower_str_int_not_true z : lower (str_int z) <> "true".
Proof.
  unfold str_int. destruct (Z.to_int z) as [u | u]; [|discriminate].
  destruct u; discriminate.
Qed.

(** The fallback test holds of [True] and of the strings that read
    ["true"] once lowered, and of no other value. *)
Lemma flag_is_true_spec R v :
  flag_is_true R v = true <->
  v = VBool true \/ exists s, v = VStr s /\ lower s = "true".
Proof.
  unfold flag_is_true, str_of. split.
  - destruct v as [| [|] | z | s | l | d]; simpl; intros H;
      try discriminate; [by left| |right; exists s; split; [done|]].
    + apply String.eqb_eq in H. by apply lower_str_int_not_true in H.
    + by apply String.eqb_eq.
  - intros [-> | (s & -> & Hs)]; simpl; [done|]. by apply String.eqb_eq.
Qed.

Lemma static_next_fallback R nd d rs :
  next nd = VDict d ->
  dict_has (meta nd) "condition" = false ->
  static_next R nd rs =
    Ok rs (if flag_is_true R (dict_get (state rs) "last_condition")
           then dict_get d "true" else dict_get d "false").
Proof.
  intros Hedge Hcond. unfold static_next. rewrite Hedge, Hcond.
  destruct d as [|kv d]; simpl.
  - by destruct (flag_is_true R _).
  - by destruct (flag_is_true R _).
Qed.

Lemma decide_next_static R nd result rs :
  has_next result = false -> decide_next R nd result rs = static_next R nd rs.
Proof.
  unfold decide_next, has_next. destruct result; try done. by intros ->.
Qed.

(** C5. At a node with a branch edge [d] and no ["condition"] in its meta,
    in a turn whose function call did not return a mapping with a
    ["next"] key and which leaves no stop flag at [True], the next node
    key is [d.get("true")] when [state["last_condition"]] passes the
    fallback test and [d.get("false")] otherwise; the test is passed by
    the boolean [True] and by the strings that read ["true"] once
    lowered, and by nothing else (an absent key reads [None]). *)
Theorem fallback_branch_law (R : Runtime) (g : GraphDef) (k : string) (nd : NodeDef)
    (d : dict) (rs rs1 : RunState) (result : value)
    (Hnode : nodes g !! k = Some nd)
    (Hedge : next nd = VDict d)
    (Hcond : dict_has (meta nd) "condition" = false)
    (Hcall : execute_fn R nd (VStr k) (entered rs k) = Ok rs1 result)
    (Hnext : has_next result = false)
    (Hstop : is_True (dict_get (state rs1) "stop") = false) :
  let flag := dict_get (state rs1) "last_condition" in
  (flag_is_true R flag = true <->
   flag = VBool true \/ exists s, flag = VStr s /\ lower s = "true") /\
  loop_body R g (VStr k) rs =
    Next (_emit rs1 ("Node '" +:+ k +:+ "' completed. result="
                     +:+ _shortrepr (repr_str R) result))
         (if flag_is_true R flag then dict_get d "true" else dict_get d "false").
Proof.
  intros flag. split; [apply flag_is_true_spec|].
  rewrite (loop_body_found R g k nd rs Hnode), Hcall. cbv zeta.
  rewrite (decide_next_static R nd result _ Hnext).
  rewrite (static_next_fallback R nd d _ Hedge Hcond).
  rewrite stop_override_spec, state_emit, Hstop. done.
Qed.

Lemma fallback_branch_law_witness :
  loop_body bare_runtime branch_graph (VStr "A") (fresh_run [("last_condition", VStr "TRUE")])
    = Next (_emit (_emit (entered (fresh_run [("last_condition", VStr "TRUE")]) "A")
                     "Node 'A' has no fn_name; skipping execution.")
              "Node 'A' completed. result=None")
           (VStr "B").
Proof.
  assert (Hnode : nodes branch_graph !! "A"
                  = Some (plain_node "A" (VDict [("true", VStr "B"); ("false", VStr "C")])))
    by (vm_compute; reflexivity).
  exact (proj2 (fallback_branch_law bare_runtime branch_graph "A" _
                  [("true", VStr "B"); ("false", VStr "C")]
                  (fresh_run [("last_condition", VStr "TRUE")]) _ VNone
                  Hnode eq_refl eq_refl eq_refl eq_refl eq_refl)).
Defined.

(** ** C1: a returned mapping with a ["next"] key *)

Lemma decide_next_explicit R nd d rs :
  dict_has d "next" = true ->
  decide_next R nd (VDict d) rs =
    Ok (_emit rs ("Node returned explicit next: " +:+ str_of R (dict_get d "next")))
       (dict_get d "next").
Proof. intros H. unfold decide_next. by rewrite H. Qed.

Lemma execute_fn_directive R nd k rs is_tool fn st d :
  resolves R nd is_tool fn ->
  fn (state rs) = Returns st (VDict d) ->
  dict_has d "next" = true ->
  execute_fn R nd k rs
    = Ok (set_state rs (if is_tool then dict_update st d else st)) (VDict d).
Proof.
  intros Hres Hcall Hnext.
  destruct Hres as [t fn Hfn Hsome | f fn Hfn Hne Hpre Hsome];
    unfold execute_fn; rewrite Hfn, truthy_str by done.
  - rewrite startswith_tool. unfold call_tool.
    rewrite split_colon_1_tool. cbv iota beta. unfold _call_fn.
  by rewrite Hsome, Hcall.
  - rewrite Hpre. unfold call_node_fn.
    rewrite table_get_str. unfold _call_fn. by rewrite Hsome, Hcall, Hnext.
Qed.

(** What a turn does with a returned mapping that has a ["next"] key, in
    each namespace: the value of ["next"] is the next node key (unless the
    stop flag overrides it); after a node function the state is the one
    the function left, after a tool it is that state updated with every
    entry of the mapping. *)
Theorem next_directive_merge (R : Runtime) (g : GraphDef) (k : string) (nd : NodeDef)
    (rs : RunState) (is_tool : bool) (fn : PyFn) (st d : dict)
    (Hnode : nodes g !! k = Some nd)
    (Hres : resolves R nd is_tool fn)
    (Hcall : fn (state rs) = Returns st (VDict d))
    (Hnext : dict_has d "next" = true) :
  let st' := if is_tool then dict_update st d else st in
  exists rs',
    loop_body R g (VStr k) rs
      = Next rs' (if is_True (dict_get st' "stop") then VNone else dict_get d "next") /\
    state rs' = st'.
Proof.
  intros st'. rewrite (loop_body_found R g k nd rs Hnode).
  rewrite (execute_fn_directive R nd (VStr k) (entered rs k) is_tool fn st d Hres Hcall Hnext).
  cbv zeta. rewrite decide_next_explicit by done.
  rewrite stop_override_spec. simpl state. fold st'.
  destruct (is_True (dict_get st' "stop")); eexists; split; reflexivity.
Qed.

Lemma next_directive_merge_witness :
  (exists rs',
      loop_body directive_runtime directive_graph (VStr "A") (fresh_run [("y", VInt 2)])
        = Next rs' (VStr "B") /\
      state rs' = [("y", VInt 2)]) /\
  (exists rs',
      loop_body directive_runtime directive_graph (VStr "T") (fresh_run [("y", VInt 2)])
        = Next rs' (VStr "B") /\
      state rs' = [("y", VInt 2); ("x", VInt 1); ("next", VStr "B")]).
Proof.
  split.
  - refine (next_directive_merge directive_runtime directive_graph "A"
              (fn_node "A" "f" VNone) (fresh_run [("y", VInt 2)]) false directive_fn
              [("y", VInt 2)] [("x", VInt 1); ("next", VStr "B")] _ _ eq_refl eq_refl).
    + vm_compute; reflexivity.
    + apply (resolves_node_fn _ _ "f"); [reflexivity | discriminate | reflexivity |].
      vm_compute; reflexivity.
  - refine (next_directive_merge directive_runtime directive_graph "T"
              (fn_node "T" "tool:t" VNone) (fresh_run [("y", VInt 2)]) true directive_fn
              [("y", VInt 2)] [("x", VInt 1); ("next", VStr "B")] _ _ eq_refl eq_refl).
    + vm_compute; reflexivity.
    + apply (resolves_tool _ _ "t"); [reflexivity|]. vm_compute; reflexivity.
Defined.

(** The entries of a mapping returned with a ["next"] key are not kept
    out of the state in every namespace. *)
Lemma tool_directive_is_merged :
  ~ (forall (R : Runtime) (g : GraphDef) (k : string) (nd : NodeDef) (rs : RunState)
            (is_tool : bool) (fn : PyFn) (st d : dict),
        nodes g !! k = Some nd ->
        resolves R nd is_tool fn ->
        fn (state rs) = Returns st (VDict d) ->
        dict_has d "next" = true ->
        forall x, x <> "next" ->
          dict_get (state (flow_rs (loop_body R g (VStr k) rs))) x = dict_get st x).
Proof.
  intros H.
  assert (Hnode : nodes directive_graph !! "T" = Some (fn_node "T" "tool:t" VNone))
    by (vm_compute; reflexivity).
  assert (Hres : resolves directive_runtime (fn_node "T" "tool:t" VNone) true directive_fn).
  { apply (resolves_tool _ _ "t"); [reflexivity|]. vm_compute; reflexivity. }
  specialize (H directive_runtime directive_graph "T" _ (fresh_run [])
                true directive_fn [] [("x", VInt 1); ("next", VStr "B")]
                Hnode Hres eq_refl eq_refl "x").
  assert (Hx : "x" <> "next") by discriminate.
  specialize (H Hx). vm_compute in H. discriminate.
Qed.

(** C1, at a tool. The function [directive_fn] leaves the state alone and
    returns [{"x": 1, "next": "B"}]. Called as the node function of node
    [A] on the empty state, the turn goes on to [B] and the state stays
    empty, as the claim says. Called as the tool of node [T], the turn
    goes on to [B] as well, but both entries of the mapping are now in
    the state: the tool branch merges without the test for ["next"] that
    the node-function branch makes. *)
Theorem tool_result_with_next_is_merged :
  directive_fn [] = Returns [] (VDict [("x", VInt 1); ("next", VStr "B")]) /\
  tools directive_runtime !! "t" = Some directive_fn /\
  NODE_FUNCS directive_runtime !! "f" = Some directive_fn /\
  (exists rs',
      loop_body directive_runtime directive_graph (VStr "A") (fresh_run [])
        = Next rs' (VStr "B") /\
      state rs' = []) /\
  (exists rs',
      loop_body directive_runtime directive_graph (VStr "T") (fresh_run [])
        = Next rs' (VStr "B") /\
      state rs' = [("x", VInt 1); ("next", VStr "B")]).
Proof.
  split; [reflexivity|]. split; [vm_compute; reflexivity|].
  split; [vm_compute; reflexivity|]. split.
  - eexists. split; vm_compute; reflexivity.
  - eexists. split; vm_compute; reflexivity.
Qed.

(** ** C3: the step bound *)



(** The loop makes at most [left] turns. *)
Lemma while_loop_visited_bound R g left : forall visited k rs,
  visited <= loop_end_visited (while_loop R g left visited k rs) <= visited + left.
Proof.
  induction left as [|left IH]; intros visited k rs.
  - destruct k; simpl; lia.
  - assert (Hturn : visited <=
        loop_end_visited match loop_body R g k rs with
                         | Next rs nk => while_loop R g left (S visited) nk rs
                         | Break rs => Exited rs (S visited)
                         | Raise rs e => Thrown rs (S visited) e
                         end <= visited + S left).
    { destruct (loop_body R g k rs) as [rs' nk | rs' | rs' e]; simpl; try lia.
      specialize (IH (S visited) nk rs'). lia. }
    destruct k; simpl; solve [lia | exact Hturn].
Qed.

(** No run makes more than [MAX_STEPS] turns. *)
Lemma visits_bounded R g rs : visits R g rs <= MAX_STEPS.
Proof.
  unfold visits.
  match goal with |- context [while_loop R g MAX_STEPS 0 ?k ?r] =>
    pose proof (while_loop_visited_bound R g MAX_STEPS 0 k r) as H;
    destruct (while_loop R g MAX_STEPS 0 k r) end; simpl in H; lia.
Qed.

(** A graph that cycles is stopped at the bound, with status FAILED. *)
Lemma cycle_fails_at_bound :
  visits bare_runtime cycle_graph (fresh_run []) = 1000 /\
  status (execute_graph_run bare_runtime cycle_graph (fresh_run [])).1 = "FAILED" /\
  last (logs (execute_graph_run bare_runtime cycle_graph (fresh_run [])).1)
    = Some "Max steps 1000 reached, aborting.".
Proof. evaluate. Qed.

(** Below the bound, a loop that ends without an exception ends DONE. *)
Lemma after_loop_done rs visited :
  visited < MAX_STEPS -> status (after_loop rs visited) = "DONE".
Proof.
  intros H. unfold after_loop.
  destruct (Nat.leb_spec MAX_STEPS visited); [lia | done].
Qed.

Lemma after_loop_failed rs visited :
  MAX_STEPS <= visited -> status (after_loop rs visited) = "FAILED".
Proof.
  intros H. unfold after_loop.
  destruct (Nat.leb_spec MAX_STEPS visited); [done | lia].
Qed.

(** C3, at the bound. In a chain of exactly 1000 nodes the last node has
    no edge, so the turn at that node resolves no next key and the loop
    ends there, at its 1000th turn, because the key is [None]; the run is
    nevertheless reported FAILED, with the line about the step bound. A
    chain of 999 nodes ends DONE. *)
Theorem run_ending_on_last_allowed_turn_fails :
  nodes (chain_graph 1000 VNone) !! node_name 999
    = Some (plain_node (node_name 999) VNone) /\
  (forall rs, exists rs',
      loop_body bare_runtime (chain_graph 1000 VNone) (VStr (node_name 999)) rs
        = Next rs' VNone) /\
  visits bare_runtime (chain_graph 1000 VNone) (fresh_run []) = 1000 /\
  status (execute_graph_run bare_runtime (chain_graph 1000 VNone) (fresh_run [])).1
    = "FAILED" /\
  last (logs (execute_graph_run bare_runtime (chain_graph 1000 VNone) (fresh_run [])).1)
    = Some "Max steps 1000 reached, aborting." /\
  status (execute_graph_run bare_runtime (chain_graph 999 VNone) (fresh_run [])).1
    = "DONE".
Proof.
  assert (Hlast : nodes (chain_graph 1000 VNone) !! node_name 999
                  = Some (plain_node (node_name 999) VNone))
    by (vm_compute; reflexivity).
  split; [exact Hlast|]. split.
  { intros rs.
    change (VStr (node_name 999)) with (VStr "n999").
    change (node_name 999) with "n999" in Hlast.
    rewrite (loop_body_found _ _ _ _ rs Hlast). simpl.
    rewrite stop_override_spec.
    destruct (is_True _); eexists; reflexivity. }
  evaluate.
Qed.

(** ** C4: a node key missing from the node table *)

(** Below the bound, a missing node ends the run DONE, after the line that
    reports it. *)
Lemma missing_node_done_below_bound R g k rs left visited :
  nodes g !! k = None ->
  S visited < MAX_STEPS ->
  let out := try_run R g (S left) visited (VStr k) rs in
  out.2 = None /\
  status out.1 = "DONE" /\
  logs out.1 = (logs rs ++ ["Node '" +:+ k +:+ "' not found. Stopping.";
                            "Run finished. status=DONE"])%list.
Proof.
  intros Hnone Hlt. unfold try_run. simpl.
  rewrite (loop_body_missing R g k rs Hnone).
  split; [done|]. split.
  - simpl. by apply after_loop_done.
  - unfold after_loop. destruct (Nat.leb_spec MAX_STEPS (S visited)); [lia|].
    simpl. by rewrite <- app_assoc.
Qed.

(** C4, at the bound. A chain of 999 nodes whose last edge points to a key
    that is not in the node table: the 1000th turn finds the node
    missing, reports it and leaves the loop by [break]; the run is
    nevertheless reported FAILED, with the line about the step bound. *)
Theorem missing_node_on_last_allowed_turn_fails :
  nodes (chain_graph 999 (VStr "nowhere")) !! "nowhere" = None /\
  visits bare_runtime (chain_graph 999 (VStr "nowhere")) (fresh_run []) = 1000 /\
  status (execute_graph_run bare_runtime (chain_graph 999 (VStr "nowhere"))
            (fresh_run [])).1 = "FAILED" /\
  drop 2998 (logs (execute_graph_run bare_runtime (chain_graph 999 (VStr "nowhere"))
                     (fresh_run [])).1)
    = ["Node 'nowhere' not found. Stopping."; "Max steps 1000 reached, aborting."].
Proof. evaluate. Qed.

(** ** C10: a next key that resolves to nothing *)

Lemma dict_get_absent d x : dict_has d x = false -> dict_get d x = VNone.
Proof.
  induction d as [|[x' v] d IH]; simpl; [done|].
  destruct (String.eqb x x'); [discriminate | exact IH].
Qed.

(** Below the bound, a turn that resolves no next key ends the run DONE. *)
Lemma turn_without_next_done_below_bound R g k rs rs' left visited :
  k <> VNone ->
  loop_body R g k rs = Next rs' VNone ->
  S visited < MAX_STEPS ->
  let out := try_run R g (S left) visited k rs in
  out.2 = None /\ status out.1 = "DONE".
Proof.
  intros Hk Hturn Hlt. unfold try_run.
  assert (Hloop : while_loop R g (S left) visited k rs = Exited rs' (S visited)).
  { destruct k; try done; simpl; rewrite Hturn; by destruct left. }
  rewrite Hloop. simpl. split; [done|]. by apply after_loop_done.
Qed.

(** C10, at the bound. A chain of 1000 nodes whose last node has a branch
    edge without a ["false"] key: with no ["last_condition"] in state the
    fallback selects ["false"], the next key is [None] and the loop ends
    at its 1000th turn; the run is nevertheless reported FAILED, with the
    line about the step bound. The same chain one node shorter ends
    DONE. *)
Theorem unresolved_branch_on_last_allowed_turn_fails :
  nodes (chain_graph 1000 (VDict [("true", VStr "n0")])) !! node_name 999
    = Some (plain_node (node_name 999) (VDict [("true", VStr "n0")])) /\
  visits bare_runtime (chain_graph 1000 (VDict [("true", VStr "n0")])) (fresh_run [])
    = 1000 /\
  status (execute_graph_run bare_runtime (chain_graph 1000 (VDict [("true", VStr "n0")]))
            (fresh_run [])).1 = "FAILED" /\
  drop 3000 (logs (execute_graph_run bare_runtime
                     (chain_graph 1000 (VDict [("true", VStr "n0")])) (fresh_run [])).1)
    = ["Node 'n999' completed. result=None"; "Max steps 1000 reached, aborting."] /\
  status (execute_graph_run bare_runtime (chain_graph 999 (VDict [("true", VStr "n0")]))
            (fresh_run [])).1 = "DONE".
Proof. evaluate. Qed.

(** ** C2: the copy of the initial state *)

(** A mutation of the state mapping itself touches no other object. *)
Lemma apply_top_level_frame l h m i :
  Heap.path_of m = [] -> i <> l -> Heap.apply l h m !! i = h !! i.
Proof.
  intros Hpath Hne. unfold Heap.apply. rewrite Hpath. simpl.
  destruct (h !! l) as [o|]; [|done].
  destruct (Heap.mutate m o); [|done].
  by apply list_lookup_insert_ne.
Qed.

Lemma apply_all_top_level_frame l ms : forall h i,
  Forall (fun m => Heap.path_of m = []) ms ->
  i <> l -> Heap.apply_all l h ms !! i = h !! i.
Proof.
  induction ms as [|m ms IH]; intros h i Htop Hne; [done|].
  inversion Htop as [|? ? Hm Hms]; subst. unfold Heap.apply_all in *. simpl.
  rewrite (IH _ i Hms Hne). by apply apply_top_level_frame.
Qed.

Lemma read_obj depth h l :
  Heap.read (S depth) h (Heap.RObj l) =
    match h !! l with
    | None => None
    | Some (Heap.OList xs) => VList <$> mapM (Heap.read depth h) xs
    | Some (Heap.ODict d) =>
        VDict <$> mapM (fun kv => pair kv.1 <$> Heap.read depth h kv.2) d
    end.
Proof. done. Qed.

(** Reading only follows references to objects that exist, so a store
    that agrees on the existing objects reads the same. *)
Lemma read_stable (h h' : Heap.heap) :
  (forall i, i < length h -> h' !! i = h !! i) ->
  forall depth r v, Heap.read depth h r = Some v -> Heap.read depth h' r = Some v.
Proof.
  intros Hagree. induction depth as [|depth IH]; intros r v Hread.
  - destruct r; simpl in *; done.
  - destruct r as [| b | z | s | l]; try done.
    rewrite read_obj in Hread |- *.
    destruct (h !! l) as [o|] eqn:Hl; [|done].
    rewrite (Hagree l (lookup_lt_Some _ _ _ Hl)), Hl.
    destruct o as [d | xs].
    + destruct (mapM _ d) as [kvs|] eqn:Hm; [|done].
      apply mapM_Some in Hm.
      assert (Hm' : mapM (fun kv => pair kv.1 <$> Heap.read depth h' kv.2) d = Some kvs).
      { apply mapM_Some. eapply Forall2_impl; [exact Hm|].
        intros [x r'] [x' v'] Hkv. simpl in *.
        destruct (Heap.read depth h r') as [w|] eqn:Hr; [|done].
        by rewrite (IH _ _ Hr). }
      by rewrite Hm'.
    + destruct (mapM _ xs) as [vs|] eqn:Hm; [|done].
      apply mapM_Some in Hm.
      assert (Hm' : mapM (Heap.read depth h') xs = Some vs).
      { apply mapM_Some. eapply Forall2_impl; [exact Hm|]. intros r' v'. apply IH. }
      by rewrite Hm'.
Qed.

(** C2, as the code has it. [run_graph_async] gives the run a new mapping
    object with the slots of the caller's mapping (a shallow copy). Every
    later mutation of the run's state mapping itself (the engine's
    [update], a function's item assignment, deletion or [update] on
    [state]) leaves every object the caller had as it was: whatever could
    be read through a reference before the run, the caller's mapping
    included, reads the same afterwards. *)
Theorem shallow_copy_isolates_top_level (GRAPHS : gmap UUID GraphDef) (h h1 : Heap.heap)
    (rid gid : UUID) (l0 : Heap.loc) (run : Heap.Run) (ms : list Heap.mutation)
    (Hrun : Heap.run_graph_async GRAPHS h rid gid l0 = Some (h1, run))
    (Htop : Forall (fun m => Heap.path_of m = []) ms) :
  Heap.state run <> l0 /\
  h1 !! Heap.state run = h !! l0 /\
  (forall depth r v,
      Heap.read depth h r = Some v ->
      Heap.read depth (Heap.apply_all (Heap.state run) h1 ms) r = Some v).
Proof.
  unfold Heap.run_graph_async in Hrun.
  destruct (GRAPHS !! gid) as [graph|]; [|done].
  unfold Heap.dict_copy, Heap.alloc in Hrun.
  destruct (h !! l0) as [[d | xs]|] eqn:Hl0; try done.
  inversion Hrun; subst h1 run; clear Hrun. simpl.
  pose proof (lookup_lt_Some _ _ _ Hl0) as Hlt.
  split; [lia|]. split.
  - by rewrite lookup_app_r, Nat.sub_diag by lia.
  - apply read_stable. intros i Hi.
    rewrite apply_all_top_level_frame by (done || lia).
    by apply lookup_app_l.
Qed.

Lemma shallow_copy_isolates_top_level_witness :
  Heap.read 2
    (Heap.apply_all 2 (caller_heap ++ [Heap.ODict [("xs", Heap.RObj 1)]])%list
       [Heap.SetItem [] "xs" Heap.RNone; Heap.Update [] [("y", Heap.RInt 7)]])
    (Heap.RObj 0)
  = Some (VDict [("xs", VList [VInt 1])]).
Proof.
  assert (Hrun : Heap.run_graph_async one_graph caller_heap "r" "g" 0
                 = Some ((caller_heap ++ [Heap.ODict [("xs", Heap.RObj 1)]])%list,
                         {| Heap.run_id := "r"; Heap.graph_id := "g"; Heap.state := 2;
                            Heap.status := "PENDING" |}))
    by (vm_compute; reflexivity).
  assert (Htop : Forall (fun m => Heap.path_of m = [])
                   [Heap.SetItem [] "xs" Heap.RNone; Heap.Update [] [("y", Heap.RInt 7)]])
    by (repeat constructor).
  exact (proj2 (proj2 (shallow_copy_isolates_top_level _ _ _ _ _ _ _ _ Hrun Htop))
           2 (Heap.RObj 0) _ eq_refl).
Defined.

(** C2 as stated fails: a function that mutates a nested value in place,
    here [state["xs"].append(2)], changes what the caller's mapping
    reads. *)
Lemma nested_mutation_reaches_caller :
  ~ (forall (GRAPHS : gmap UUID GraphDef) (h h1 : Heap.heap) (rid gid : UUID)
            (l0 : Heap.loc) (run : Heap.Run) (ms : list Heap.mutation)
            (depth : nat) (v : value),
        Heap.run_graph_async GRAPHS h rid gid l0 = Some (h1, run) ->
        Heap.read depth h (Heap.RObj l0) = Some v ->
        Heap.read depth (Heap.apply_all (Heap.state run) h1 ms) (Heap.RObj l0) = Some v).
Proof.
  intros H.
  specialize (H one_graph caller_heap
                (caller_heap ++ [Heap.ODict [("xs", Heap.RObj 1)]])%list "r" "g" 0
                {| Heap.run_id := "r"; Heap.graph_id := "g"; Heap.state := 2;
                   Heap.status := "PENDING" |}
                [Heap.Append ["xs"] (Heap.RInt 2)] 2 (VDict [("xs", VList [VInt 1])])).
  assert (Hrun : Heap.run_graph_async one_graph caller_heap "r" "g" 0
                 = Some ((caller_heap ++ [Heap.ODict [("xs", Heap.RObj 1)]])%list,
                         {| Heap.run_id := "r"; Heap.graph_id := "g"; Heap.state := 2;
                            Heap.status := "PENDING" |}))
    by (vm_compute; reflexivity).
  specialize (H Hrun eq_refl). vm_compute in H. discriminate.
Qed.

(** * Further properties of the code *)

(** ** Dictionaries: item assignment and [update] *)

Lemma dict_get_set d k v x :
  dict_get (dict_set d k v) x = if String.eqb x k then v else dict_get d x.
Proof.
  induction d as [|[k' v'] d IH]; simpl.
  - by destruct (String.eqb x k).
  - destruct (String.eqb_spec k k') as [->|Hk]; simpl.
    + by destruct (String.eqb x k').
    + rewrite IH. destruct (String.eqb_spec x k') as [->|Hx]; [|done].
      by destruct (String.eqb_spec k' k) as [->|].
Qed.

Lemma dict_has_set d k v x :
  dict_has (dict_set d k v) x = String.eqb x k || dict_has d x.
Proof.
  induction d as [|[k' v'] d IH]; simpl.
  - by destruct (String.eqb x k).
  - destruct (String.eqb_spec k k') as [->|Hk]; simpl.
    + by destruct (String.eqb x k').
    + rewrite IH. destruct (String.eqb_spec x k') as [->|Hx];
        [by rewrite orb_true_r | done].
Qed.

Lemma dict_has_not_in (d : dict) x : x ∉ map fst d -> dict_has d x = false.
Proof.
  induction d as [|[k v] d IH]; simpl; [done|]. intros Hnot.
  apply not_elem_of_cons in Hnot as [Hne Hnot].
  destruct (String.eqb_spec x k); [done | by apply IH].
Qed.

Lemma dict_update_cons st k v res :
  dict_update st ((k, v) :: res) = dict_update (dict_set st k v) res.
Proof. done. Qed.

(** After [st.update(res)] a key of [res] reads as in [res] and every
    other key as in [st]. *)
Lemma dict_get_update res : forall st x,
  NoDup (map fst res) ->
  dict_get (dict_update st res) x
    = if dict_has res x then dict_get res x else dict_get st x.
Proof.
  induction res as [|[k v] res IH]; intros st x Hnodup; [done|].
  apply NoDup_cons in Hnodup as [Hk Hnodup].
  rewrite dict_update_cons, IH by done. simpl.
  destruct (String.eqb_spec x k) as [->|Hx].
  - rewrite (dict_has_not_in res k Hk), dict_get_set.
    by rewrite String.eqb_refl.
  - rewrite dict_get_set. by destruct (String.eqb_spec x k).
Qed.

Lemma dict_has_update res : forall st x,
  dict_has (dict_update st res) x = dict_has res x || dict_has st x.
Proof.
  induction res as [|[k v] res IH]; intros st x; [done|].
  rewrite dict_update_cons, IH, dict_has_set. simpl.
  destruct (String.eqb x k), (dict_has res x); done.
Qed.

Lemma execute_fn_merges R nd k rs is_tool fn st d :
  resolves R nd is_tool fn ->
  fn (state rs) = Returns st (VDict d) ->
  is_tool = true \/ dict_has d "next" = false ->
  execute_fn R nd k rs = Ok (set_state rs (dict_update st d)) (VDict d).
Proof.
  intros Hres Hcall Hmerge.
  destruct Hres as [t fn Hfn Hsome | f fn Hfn Hne Hpre Hsome];
    unfold execute_fn; rewrite Hfn, truthy_str by done.
  - rewrite startswith_tool. unfold call_tool.
    rewrite split_colon_1_tool. cbv iota beta. unfold _call_fn.
    by rewrite Hsome, Hcall.
  - destruct Hmerge as [|Hnext]; [done|].
    rewrite Hpre. unfold call_node_fn.
    rewrite table_get_str. unfold _call_fn. by rewrite Hsome, Hcall, Hnext.
Qed.

(** X1. Merge law. When a tool returns a mapping, or a node function
    returns a mapping without a ["next"] key, the state after the call is
    the state the function left, updated with the mapping: every key of
    the mapping reads the returned value, every other key reads what the
    function left, and no key disappears. *)
Theorem returned_mapping_is_merged (R : Runtime) (nd : NodeDef) (k : value)
    (rs : RunState) (is_tool : bool) (fn : PyFn) (st d : dict)
    (Hres : resolves R nd is_tool fn)
    (Hcall : fn (state rs) = Returns st (VDict d))
    (Hmerge : is_tool = true \/ dict_has d "next" = false)
    (Hkeys : NoDup (map fst d)) :
  exists rs1,
    execute_fn R nd k rs = Ok rs1 (VDict d) /\
    forall x,
      dict_get (state rs1) x = (if dict_has d x then dict_get d x else dict_get st x) /\
      dict_has (state rs1) x = dict_has d x || dict_has st x.
Proof.
  eexists. split; [by eapply execute_fn_merges|].
  intros x. simpl. split; [by apply dict_get_update | apply dict_has_update].
Qed.

Lemma returned_mapping_is_merged_witness :
  exists rs1,
    execute_fn counter_runtime (fn_node "a" "tool:simple_issue_counter" VNone) (VStr "a")
               (fresh_run [("basic_issues", VList [VNone; VNone]); ("y", VInt 2)])
      = Ok rs1 (VDict [("issue_count", VInt 2)]) /\
    forall x,
      dict_get (state rs1) x
        = (if dict_has [("issue_count", VInt 2)] x
           then dict_get [("issue_count", VInt 2)] x
           else dict_get [("basic_issues", VList [VNone; VNone]); ("y", VInt 2);
                          ("issue_count", VInt 2)] x) /\
      dict_has (state rs1) x
        = dict_has [("issue_count", VInt 2)] x
          || dict_has [("basic_issues", VList [VNone; VNone]); ("y", VInt 2);
                       ("issue_count", VInt 2)] x.
Proof.
  refine (returned_mapping_is_merged counter_runtime
            (fn_node "a" "tool:simple_issue_counter" VNone) (VStr "a")
            (fresh_run [("basic_issues", VList [VNone; VNone]); ("y", VInt 2)]) true
            simple_issue_counter
            [("basic_issues", VList [VNone; VNone]); ("y", VInt 2); ("issue_count", VInt 2)]
            [("issue_count", VInt 2)] _ eq_refl (or_introl eq_refl) _).
  - apply (resolves_tool _ _ "simple_issue_counter"); [reflexivity|].
    vm_compute; reflexivity.
  - apply NoDup_cons. split; [apply not_elem_of_nil | apply NoDup_nil_2].
Defined.

(** ** [_shortrepr] *)




Example str_len_counts_characters :
  str_len "éé" = 2 /\ String.length "éé" = 4 /\ str_take 1 "éé" = "é".
Proof. by vm_compute. Qed.


(** ** What the loop leaves alone *)

Section Frame.
Variable R : Runtime.
Variable P : RunState -> RunState -> Prop.
Hypothesis P_emit : forall rs0 rs msg, P rs0 rs -> P rs0 (_emit rs msg).
Hypothesis P_set_state : forall rs0 rs st, P rs0 rs -> P rs0 (set_state rs st).
Hypothesis P_set_current_node :
  forall rs0 rs k, P rs0 rs -> P rs0 (set_current_node rs k).

Lemma execute_fn_frame nd k rs0 rs :
  P rs0 rs -> P rs0 (step_rs (execute_fn R nd k rs)).
Proof using P_emit P_set_state.
  intros H. unfold execute_fn.
  assert (Hnode : forall f, P rs0 (step_rs (call_node_fn R f rs))).
  { intros f. unfold call_node_fn.
    destruct (table_get _ _) as [e | [fn|]]; simpl; [done| |done].
    destruct (_call_fn fn (state rs)) as [st [] | st e]; simpl; auto.
    destruct (dict_has d "next"); simpl; auto. }
  destruct (truthy (fn_name nd)); [|simpl; auto].
  destruct (fn_name nd) as [| b | z | s | l | d]; try apply Hnode.
  destruct (startswith s "tool:"); [|apply Hnode].
  unfold call_tool. destruct (split_colon_1 s); simpl; [|done].
  destruct (tools R !! _) as [tool|]; simpl; [|done].
  destruct (_call_fn tool (state rs)) as [st [] | st e]; simpl; auto.
Qed.

Lemma decide_next_frame nd result rs0 rs :
  P rs0 rs -> P rs0 (step_rs (decide_next R nd result rs)).
Proof using P_emit P_set_state.
  intros H.
  assert (Hstatic : P rs0 (step_rs (static_next R nd rs))).
  { unfold static_next.
    destruct (truthy (next nd)); simpl; [|done].
    destruct (next nd); simpl; try done.
    destruct (dict_has (meta nd) "condition").
    - destruct (py_eval R _ _) as [st v | st e]; simpl; auto.
      destruct (exn_is_Exception e); simpl; auto.
    - destruct (flag_is_true R _); simpl; done. }
  unfold decide_next. destruct result; try done.
  destruct (dict_has d "next"); simpl; auto.
Qed.

Lemma loop_body_frame g k rs0 rs :
  P rs0 rs -> P rs0 (flow_rs (loop_body R g k rs)).
Proof using P_emit P_set_state P_set_current_node.
  intros H. unfold loop_body.
  destruct (table_get (nodes g) k) as [e | [nd|]]; simpl; auto.
  match goal with |- context [execute_fn R nd k ?r] =>
    assert (He : P rs0 (step_rs (execute_fn R nd k r)))
      by (apply execute_fn_frame; auto);
    destruct (execute_fn R nd k r) as [rs1 result | rs1 e] end; simpl in *; [|done].
  match goal with |- context [decide_next R nd result ?r] =>
    assert (Hd : P rs0 (step_rs (decide_next R nd result r)))
      by (apply decide_next_frame; auto);
    destruct (decide_next R nd result r) as [rs2 nk | rs2 e] end; simpl in *; [|done].
  rewrite stop_override_spec. destruct (is_True _); simpl; auto.
Qed.

Lemma while_loop_frame g left : forall visited k rs0 rs,
  P rs0 rs -> P rs0 (loop_end_rs (while_loop R g left visited k rs)).
Proof using P_emit P_set_state P_set_current_node.
  induction left as [|left IH]; intros visited k rs0 rs H.
  - destruct k; simpl; done.
  - assert (Hturn : P rs0
      (loop_end_rs match loop_body R g k rs with
                   | Next rs nk => while_loop R g left (S visited) nk rs
                   | Break rs => Exited rs (S visited)
                   | Raise rs e => Thrown rs (S visited) e
                   end)).
    { pose proof (loop_body_frame g k rs0 rs H) as Hb.
      destruct (loop_body R g k rs); simpl in *; auto. }
    destruct k; simpl; done.
Qed.
End Frame.

Lemma while_loop_same_ids R g left visited k rs :
  same_ids rs (loop_end_rs (while_loop R g left visited k rs)).
Proof.
  apply (while_loop_frame R same_ids); try done; by intros ? ? ? (? & ? & ?).
Qed.

(** X3. How a run ends. [execute_graph_run] never changes the run id or
    the graph id of the record. If an exception that is not an
    [Exception] leaves the coroutine, the status is still RUNNING. In
    every other case the status is DONE or FAILED, and it is DONE only
    when the loop made fewer than [MAX_STEPS] turns, the last log line
    then being the completion line. *)
Theorem run_ends_in_terminal_status (R : Runtime) (g : GraphDef) (rs : RunState) :
  let out := execute_graph_run R g rs in
  run_id out.1 = run_id rs /\
  run_graph_id out.1 = run_graph_id rs /\
  match out.2 with
  | Some e => exn_is_Exception e = false /\ status out.1 = "RUNNING"
  | None =>
      (status out.1 = "DONE" /\ visits R g rs < MAX_STEPS /\
       last (logs out.1) = Some "Run finished. status=DONE") \/
      status out.1 = "FAILED"
  end.
Proof.
  unfold execute_graph_run, visits, try_run.
  match goal with |- context [while_loop R g MAX_STEPS 0 ?k ?r] =>
    pose proof (while_loop_same_ids R g MAX_STEPS 0 k r) as (Hrid & Hgid & Hst);
    destruct (while_loop R g MAX_STEPS 0 k r) as [rs1 v | rs1 v e] end;
    simpl in Hrid, Hgid, Hst.
  - unfold after_loop. destruct (Nat.leb_spec MAX_STEPS v); simpl.
    + split; [done|]. split; [done|]. by right.
    + split; [done|]. split; [done|]. left. split; [done|]. split; [done|].
      apply last_snoc.
  - destruct (exn_is_Exception e) eqn:He; simpl.
    + split; [done|]. split; [done|]. by right.
    + done.
Qed.

(** ** A function that raises *)

(** X4. When the function a node resolves to raises, the turn is over at
    once, the state is the one the function left and no other node is
    entered. If the exception is an [Exception] the run ends FAILED with
    one more log line, made of the message and the trace; otherwise the
    exception leaves the coroutine, no line is added and the status is
    not touched. *)
Theorem function_error_ends_run (R : Runtime) (g : GraphDef) (k : string) (nd : NodeDef)
    (is_tool : bool) (fn : PyFn) (st : dict) (e : exn) (rs : RunState)
    (left visited : nat)
    (Hnode : nodes g !! k = Some nd)
    (Hres : resolves R nd is_tool fn)
    (Hcall : fn (state rs) = Raises st e) :
  while_loop R g (S left) visited (VStr k) rs
    = Thrown (set_state (entered rs k) st) (S visited) e /\
  let out := try_run R g (S left) visited (VStr k) rs in
  state out.1 = st /\
  current_node out.1 = VStr k /\
  if exn_is_Exception e then
    out.2 = None /\ status out.1 = "FAILED" /\
    logs out.1 = (logs rs ++ ["Entering node: " +:+ k;
                              "Execution failed: " +:+ exn_msg e +:+ LF
                                +:+ format_exc R e])%list
  else
    out.2 = Some e /\ status out.1 = status rs /\
    logs out.1 = (logs rs ++ ["Entering node: " +:+ k])%list.
Proof.
  assert (Hexec : execute_fn R nd (VStr k) (entered rs k)
                  = Err (set_state (entered rs k) st) e).
  { destruct Hres as [t fn Hfn Hsome | f fn Hfn Hne Hpre Hsome];
      unfold execute_fn; rewrite Hfn, truthy_str by done.
    - rewrite startswith_tool. unfold call_tool.
      rewrite split_colon_1_tool. cbv iota beta. unfold _call_fn.
      rewrite Hsome. simpl state. by rewrite Hcall.
    - rewrite Hpre. unfold call_node_fn.
      rewrite table_get_str. unfold _call_fn. rewrite Hsome.
      simpl state. by rewrite Hcall. }
  assert (Hloop : while_loop R g (S left) visited (VStr k) rs
                  = Thrown (set_state (entered rs k) st) (S visited) e).
  { simpl. by rewrite (loop_body_found R g k nd rs Hnode), Hexec. }
  split; [exact Hloop|].
  unfold try_run. rewrite Hloop.
  destruct (exn_is_Exception e); simpl; repeat split; try done.
  by rewrite <- app_assoc.
Qed.

Lemma function_error_ends_run_witness :
  state (try_run failing_runtime
           {| graph_id := "g"; nodes := {[ "A" := fn_node "A" "f" (VStr "B") ]};
              entry := "A" |} 1000 0 (VStr "A") (fresh_run [])).1
    = [("seen", VBool true)].
Proof.
  assert (Hnode : nodes {| graph_id := "g";
                           nodes := {[ "A" := fn_node "A" "f" (VStr "B") ]};
                           entry := "A" |} !! "A"
                  = Some (fn_node "A" "f" (VStr "B")))
    by (vm_compute; reflexivity).
  assert (Hres : resolves failing_runtime (fn_node "A" "f" (VStr "B")) false failing_fn).
  { apply (resolves_node_fn _ _ "f"); [reflexivity | discriminate | reflexivity |].
    vm_compute; reflexivity. }
  exact (proj1 (proj2 (function_error_ends_run failing_runtime _ "A" _ false failing_fn
                         [("seen", VBool true)] (RuntimeError "boom") (fresh_run [])
                         999 0 Hnode Hres eq_refl))).
Defined.

(** ** How much a run logs *)

Lemma grows_by_refl rs : grows_by 0 rs rs.
Proof. exists []. split; [|done]. split; simpl; by rewrite app_nil_r. Qed.

Lemma grows_by_weaken n m rs rs' : n <= m -> grows_by n rs rs' -> grows_by m rs rs'.
Proof. intros Hle (msgs & He & Hn). exists msgs. split; [done | lia]. Qed.

Lemma grows_by_trans n m rs1 rs2 rs3 :
  grows_by n rs1 rs2 -> grows_by m rs2 rs3 -> grows_by (n + m) rs1 rs3.
Proof.
  intros (m1 & H1 & Hn) (m2 & H2 & Hm). exists (m1 ++ m2)%list. split.
  - by eapply emitted_trans.
  - rewrite length_app. lia.
Qed.

Lemma grows_by_emit n rs rs' msg : grows_by n rs rs' -> grows_by (S n) rs (_emit rs' msg).
Proof.
  intros H. replace (S n) with (n + 1) by lia.
  eapply grows_by_trans; [exact H|]. exists [msg]. split; [apply emitted_emit | done].
Qed.

Lemma grows_by_set_state n rs rs' st : grows_by n rs rs' -> grows_by n rs (set_state rs' st).
Proof. intros (msgs & [Hl Hq] & Hn). exists msgs. by repeat split. Qed.

Lemma grows_by_set_current_node n rs rs' k :
  grows_by n rs rs' -> grows_by n rs (set_current_node rs' k).
Proof. intros (msgs & [Hl Hq] & Hn). exists msgs. by repeat split. Qed.

Lemma grows_by_set_status n rs rs' s : grows_by n rs rs' -> grows_by n rs (set_status rs' s).
Proof. intros (msgs & [Hl Hq] & Hn). exists msgs. by repeat split. Qed.

Section Lines.
Variable R : Runtime.

(** The call itself logs nothing; only the skip of a node without a
    function does, and then the result is [None]. *)
Lemma execute_fn_lines nd k rs0 rs n :
  grows_by n rs0 rs ->
  match execute_fn R nd k rs with
  | Ok rs1 result => grows_by (if has_next result then n else S n) rs0 rs1
  | Err rs1 _ => grows_by n rs0 rs1
  end.
Proof.
  intros H.
  assert (Hup : forall rs1 result, grows_by n rs0 rs1 ->
                  grows_by (if has_next result then n else S n) rs0 rs1).
  { intros rs1 result Hn. destruct (has_next result); [done|].
    eapply grows_by_weaken; [|exact Hn]. lia. }
  assert (Hnode : forall f,
            match call_node_fn R f rs with
            | Ok rs1 result => grows_by (if has_next result then n else S n) rs0 rs1
            | Err rs1 _ => grows_by n rs0 rs1
            end).
  { intros f. unfold call_node_fn.
    destruct (table_get _ _) as [e | [fn|]]; [done| |done].
    destruct (_call_fn fn (state rs)) as [st res | st e];
      [|by apply grows_by_set_state].
    destruct res; try by apply Hup, grows_by_set_state.
    destruct (dict_has d "next"); by apply Hup, grows_by_set_state. }
  unfold execute_fn.
  destruct (truthy (fn_name nd)); [|simpl; by apply grows_by_emit].
  destruct (fn_name nd) as [| b | z | s | l | d]; try apply Hnode.
  destruct (startswith s "tool:"); [|apply Hnode].
  unfold call_tool. destruct (split_colon_1 s); [|done].
  destruct (tools R !! _) as [tool|]; [|done].
  destruct (_call_fn tool (state rs)) as [st res | st e];
    [|by apply grows_by_set_state].
  destruct res; by apply Hup, grows_by_set_state.
Qed.

Lemma static_next_lines nd rs0 rs n :
  grows_by n rs0 rs -> grows_by n rs0 (step_rs (static_next R nd rs)).
Proof.
  intros H. unfold static_next.
  destruct (truthy (next nd)); simpl; [|done].
  destruct (next nd); simpl; try done.
  destruct (dict_has (meta nd) "condition").
  - destruct (py_eval R _ _) as [st v | st e]; simpl; [by apply grows_by_set_state|].
    destruct (exn_is_Exception e); simpl; by apply grows_by_set_state.
  - destruct (flag_is_true R _); simpl; done.
Qed.

Lemma decide_next_lines nd result rs0 rs n :
  grows_by n rs0 rs ->
  grows_by (if has_next result then S n else n) rs0
           (step_rs (decide_next R nd result rs)).
Proof.
  intros H. unfold decide_next, has_next.
  destruct result; try by apply static_next_lines.
  destruct (dict_has d "next"); simpl;
    [by apply grows_by_emit | by apply static_next_lines].
Qed.

(** A turn logs at most four lines. *)
Lemma loop_body_lines g k rs0 rs n :
  grows_by n rs0 rs -> grows_by (n + 4) rs0 (flow_rs (loop_body R g k rs)).
Proof.
  intros H. unfold loop_body.
  destruct (table_get (nodes g) k) as [e | [nd|]]; simpl.
  - eapply grows_by_weaken; [|by apply grows_by_set_current_node]. lia.
  - match goal with |- context [execute_fn R nd k ?r] =>
      assert (He : grows_by (S n) rs0 r)
        by (by apply grows_by_emit, grows_by_set_current_node);
      pose proof (execute_fn_lines nd k rs0 r (S n) He) as Hx;
      destruct (execute_fn R nd k r) as [rs1 result | rs1 e] end; simpl.
    + apply (grows_by_emit _ _ _
               ("Node '" +:+ str_of R k +:+ "' completed. result="
                +:+ _shortrepr (repr_str R) result)) in Hx.
      match goal with |- context [decide_next R nd result ?r] =>
        pose proof (decide_next_lines nd result rs0 r _ Hx) as Hd;
        destruct (decide_next R nd result r) as [rs2 nk | rs2 e'] end; simpl in *.
      * rewrite stop_override_spec. destruct (is_True _); simpl.
        -- apply (grows_by_emit _ _ _ "State requested stop -> finishing run.") in Hd.
           eapply grows_by_weaken; [|exact Hd]. destruct (has_next result); lia.
        -- eapply grows_by_weaken; [|exact Hd]. destruct (has_next result); lia.
      * eapply grows_by_weaken; [|exact Hd]. destruct (has_next result); lia.
    + eapply grows_by_weaken; [|exact Hx]. lia.
  - eapply grows_by_weaken; [|by apply grows_by_emit, grows_by_set_current_node]. lia.
Qed.

Lemma while_loop_lines g left : forall visited k rs0 rs n,
  grows_by n rs0 rs ->
  grows_by (n + 4 * (loop_end_visited (while_loop R g left visited k rs) - visited))
           rs0 (loop_end_rs (while_loop R g left visited k rs)).
Proof.
  induction left as [|left IH]; intros visited k rs0 rs n H.
  - destruct k; simpl; (eapply grows_by_weaken; [|exact H]); lia.
  - assert (Hturn :
      let e := match loop_body R g k rs with
               | Next rs nk => while_loop R g left (S visited) nk rs
               | Break rs => Exited rs (S visited)
               | Raise rs e => Thrown rs (S visited) e
               end in
      grows_by (n + 4 * (loop_end_visited e - visited)) rs0 (loop_end_rs e)).
    { pose proof (loop_body_lines g k rs0 rs n H) as Hb.
      destruct (loop_body R g k rs) as [rs' nk | rs' | rs' e]; simpl in *.
      - pose proof (IH (S visited) nk rs0 rs' _ Hb) as Hrec.
        pose proof (while_loop_visited_bound R g left (S visited) nk rs') as Hv.
        eapply grows_by_weaken; [|exact Hrec]. lia.
      - eapply grows_by_weaken; [|exact Hb]. lia.
      - eapply grows_by_weaken; [|exact Hb]. lia. }
    destruct k; simpl; solve
      [ exact Hturn | (eapply grows_by_weaken; [|exact H]); lia ].
Qed.
End Lines.

Lemma logs_queue_put rs item : logs (queue_put rs item) = logs rs.
Proof. done. Qed.

(** X5. A run makes at most [MAX_STEPS] turns and adds at most four log
    lines per turn, plus the start line and one closing line: never more
    than 4002 lines, whatever the graph and the registered functions. The
    queue receives the same lines and the marker. *)
Theorem run_logs_are_bounded (R : Runtime) (g : GraphDef) (rs : RunState) :
  let out := execute_graph_run R g rs in
  visits R g rs <= MAX_STEPS /\
  length (logs out.1) <= length (logs rs) + 4 * visits R g rs + 2 /\
  length (logs out.1) <= length (logs rs) + 4002 /\
  length (log_queue out.1) - length (log_queue rs)
    = length (logs out.1) - length (logs rs) + 1.
Proof.
  intros out. pose proof (visits_bounded R g rs) as Hv. split; [done|].
  assert (Hlines : length (logs out.1) <= length (logs rs) + 4 * visits R g rs + 2).
  { subst out. unfold execute_graph_run, visits, try_run.
    match goal with |- context [while_loop R g MAX_STEPS 0 ?k ?r] =>
      assert (H0 : grows_by 1 rs r)
        by (apply grows_by_emit, grows_by_set_status, grows_by_refl);
      pose proof (while_loop_lines R g MAX_STEPS 0 k rs r 1 H0) as Hw;
      destruct (while_loop R g MAX_STEPS 0 k r) as [rs1 v | rs1 v e] end;
      simpl in Hw; rewrite Nat.sub_0_r in Hw.
    - assert (Ha : grows_by (S (1 + 4 * v)) rs (after_loop rs1 v)).
      { unfold after_loop. destruct (_ <=? _)%nat;
          [by apply grows_by_set_status, grows_by_emit
          | by apply grows_by_emit, grows_by_set_status]. }
      destruct Ha as (msgs & [Hl _] & Hn).
      cbn [fst]. rewrite logs_queue_put, Hl, length_app. lia.
    - destruct (exn_is_Exception e); cbn [fst]; rewrite logs_queue_put.
      + assert (Ha : grows_by (S (1 + 4 * v)) rs (on_exception R rs1 e))
          by (by apply grows_by_set_status, grows_by_emit).
        destruct Ha as (msgs & [Hl _] & Hn). rewrite Hl, length_app. lia.
      + destruct Hw as (msgs & [Hl _] & Hn). rewrite Hl, length_app. lia. }
  split; [exact Hlines|]. split; [unfold MAX_STEPS in Hv; lia|].
  destruct (execute_graph_run_trace R g rs) as (msgs & Hl & Hq).
  subst out. rewrite Hl, Hq, !length_app, length_map. simpl. lia.
Qed.

(** ** The branch condition *)

Lemma static_next_condition R nd kv d rs :
  next nd = VDict (kv :: d) ->
  dict_has (meta nd) "condition" = true ->
  static_next R nd rs =
    match py_eval R (dict_get (meta nd) "condition") (state rs) with
    | Raises st e =>
        if exn_is_Exception e then
          Err (set_state rs st)
              (RuntimeError ("Error evaluating condition '"
                             +:+ str_of R (dict_get (meta nd) "condition")
                             +:+ "': " +:+ exn_msg e))
        else Err (set_state rs st) e
    | Returns st cond_val =>
        Ok (set_state rs st)
           (dict_get (kv :: d) (if truthy cond_val then "true" else "false"))
    end.
Proof. intros Hedge Hcond. unfold static_next. by rewrite Hedge, Hcond. Qed.

(** X6. Branch law. At a node with a non-empty branch edge and a
    ["condition"] in its meta, in a turn whose call returned no mapping
    with a ["next"] key, the condition is evaluated on the state the call
    left; when the evaluation returns, the next node key is the ["true"]
    target if the value is truthy and the ["false"] target otherwise
    (unless the stop flag is set), and ["last_condition"] plays no part. *)
Theorem condition_branch_law (R : Runtime) (g : GraphDef) (k : string) (nd : NodeDef)
    (kv : string * value) (d : dict) (rs rs1 : RunState) (result : value)
    (st : dict) (cond_val : value)
    (Hnode : nodes g !! k = Some nd)
    (Hedge : next nd = VDict (kv :: d))
    (Hcond : dict_has (meta nd) "condition" = true)
    (Hcall : execute_fn R nd (VStr k) (entered rs k) = Ok rs1 result)
    (Hnext : has_next result = false)
    (Heval : py_eval R (dict_get (meta nd) "condition") (state rs1) = Returns st cond_val) :
  exists rs',
    loop_body R g (VStr k) rs
      = Next rs' (if is_True (dict_get st "stop") then VNone
                  else dict_get (kv :: d) (if truthy cond_val then "true" else "false")) /\
    state rs' = st.
Proof.
  rewrite (loop_body_found R g k nd rs Hnode), Hcall. cbv zeta.
  rewrite (decide_next_static R nd result _ Hnext).
  rewrite (static_next_condition R nd kv d _ Hedge Hcond), state_emit, Heval.
  rewrite stop_override_spec. simpl state.
  destruct (is_True (dict_get st "stop")); eexists; split; reflexivity.
Qed.

Lemma condition_branch_law_witness :
  exists rs',
    loop_body flag_runtime condition_graph (VStr "A")
              (fresh_run [("flag", VInt 0); ("last_condition", VBool true)])
      = Next rs' (VStr "C") /\
    state rs' = [("flag", VInt 0); ("last_condition", VBool true)].
Proof.
  assert (Hnode : nodes condition_graph !! "A" = Some condition_node)
    by (vm_compute; reflexivity).
  exact (condition_branch_law flag_runtime condition_graph "A" condition_node
           ("true", VStr "B") [("false", VStr "C")]
           (fresh_run [("flag", VInt 0); ("last_condition", VBool true)]) _ VNone
           [("flag", VInt 0); ("last_condition", VBool true)] (VInt 0)
           Hnode eq_refl eq_refl eq_refl eq_refl eq_refl).
Defined.

(** X7. When the evaluation of the condition raises an [Exception], the
    run ends FAILED: the last log line carries the message
    [Error evaluating condition '<expression>': <message>], and no other
    node is entered. *)
Theorem condition_error_fails_run (R : Runtime) (g : GraphDef) (k : string)
    (nd : NodeDef) (kv : string * value) (d : dict) (rs rs1 : RunState)
    (result : value) (st : dict) (e : exn) (left visited : nat)
    (Hnode : nodes g !! k = Some nd)
    (Hedge : next nd = VDict (kv :: d))
    (Hcond : dict_has (meta nd) "condition" = true)
    (Hcall : execute_fn R nd (VStr k) (entered rs k) = Ok rs1 result)
    (Hnext : has_next result = false)
    (Heval : py_eval R (dict_get (meta nd) "condition") (state rs1) = Raises st e)
    (Hexc : exn_is_Exception e = true) :
  let msg := "Error evaluating condition '"
             +:+ str_of R (dict_get (meta nd) "condition") +:+ "': " +:+ exn_msg e in
  let out := try_run R g (S left) visited (VStr k) rs in
  out.2 = None /\
  status out.1 = "FAILED" /\
  state out.1 = st /\
  current_node out.1 = VStr k /\
  last (logs out.1)
    = Some ("Execution failed: " +:+ msg +:+ LF +:+ format_exc R (RuntimeError msg)).
Proof.
  intros msg out.
  assert (Hbody : exists rs2, loop_body R g (VStr k) rs = Raise rs2 (RuntimeError msg) /\
                              state rs2 = st /\ current_node rs2 = current_node rs1).
  { rewrite (loop_body_found R g k nd rs Hnode), Hcall. cbv zeta.
    rewrite (decide_next_static R nd result _ Hnext).
    rewrite (static_next_condition R nd kv d _ Hedge Hcond), state_emit, Heval, Hexc.
    eexists. split; [reflexivity|]. done. }
  destruct Hbody as (rs2 & Hbody & Hst & Hcur).
  assert (Hkey : current_node rs1 = VStr k).
  { pose proof (execute_fn_frame R (fun _ r => current_node r = VStr k)
                  (fun _ _ _ H => H) (fun _ _ _ H => H) nd (VStr k) rs (entered rs k)
                  eq_refl) as Hf.
    by rewrite Hcall in Hf. }
  subst out. unfold try_run. simpl while_loop. rewrite Hbody. cbn [exn_is_Exception RuntimeError].
  cbn [fst snd]. split; [done|]. split; [done|]. split; [done|].
  split; [simpl; congruence|].
  rewrite logs_queue_put. unfold on_exception. simpl logs. apply last_snoc.
Qed.

Lemma condition_error_fails_run_witness :
  status (try_run flag_runtime condition_graph 1000 0 (VStr "A") (fresh_run [])).1
    = "FAILED".
Proof.
  assert (Hnode : nodes condition_graph !! "A" = Some condition_node)
    by (vm_compute; reflexivity).
  exact (proj1 (proj2 (condition_error_fails_run flag_runtime condition_graph "A"
                         condition_node ("true", VStr "B") [("false", VStr "C")]
                         (fresh_run []) _ VNone [] (RuntimeError "'flag'") 999 0
                         Hnode eq_refl eq_refl eq_refl eq_refl eq_refl eq_refl))).
Defined.

(** ** An explicit next key has priority over the edge *)

Lemma execute_fn_same_fn R nd1 nd2 k rs :
  fn_name nd1 = fn_name nd2 -> execute_fn R nd1 k rs = execute_fn R nd2 k rs.
Proof. intros H. unfold execute_fn. by rewrite H. Qed.

Lemma decide_next_same_result R nd1 nd2 result rs :
  has_next result = true ->
  decide_next R nd1 result rs = decide_next R nd2 result rs.
Proof.
  unfold decide_next, has_next. destruct result; try done. by intros ->.
Qed.

(** X8. When the call of a turn returns a mapping with a ["next"] key,
    the node's own edge and meta play no part in the turn: with any other
    edge and meta on the node (a branch, a condition that would raise,
    none at all) the turn ends the same way, in the same run state and
    with the same next key. *)
Theorem explicit_next_ignores_edge (R : Runtime) (g1 g2 : GraphDef) (k : string)
    (nd1 nd2 : NodeDef) (rs rs1 : RunState) (result : value)
    (Hnode1 : nodes g1 !! k = Some nd1)
    (Hnode2 : nodes g2 !! k = Some nd2)
    (Hfn : fn_name nd1 = fn_name nd2)
    (Hcall : execute_fn R nd1 (VStr k) (entered rs k) = Ok rs1 result)
    (Hnext : has_next result = true) :
  loop_body R g1 (VStr k) rs = loop_body R g2 (VStr k) rs.
Proof.
  rewrite (loop_body_found R g1 k nd1 rs Hnode1), (loop_body_found R g2 k nd2 rs Hnode2).
  rewrite <- (execute_fn_same_fn R nd1 nd2 _ _ Hfn), Hcall. cbv zeta.
  by rewrite (decide_next_same_result R nd1 nd2 result _ Hnext).
Qed.

Lemma explicit_next_ignores_edge_witness :
  loop_body directive_runtime directive_graph (VStr "A") (fresh_run [])
  = loop_body directive_runtime
      {| graph_id := "g";
         nodes := {[ "A" := {| key := "A"; fn_name := VStr "f";
                               next := VDict [("true", VStr "X")];
                               meta := [("condition", VStr "1/0")] |} ]};
         entry := "A" |}
      (VStr "A") (fresh_run []).
Proof.
  refine (explicit_next_ignores_edge directive_runtime directive_graph _ "A"
            (fn_node "A" "f" VNone)
            {| key := "A"; fn_name := VStr "f"; next := VDict [("true", VStr "X")];
               meta := [("condition", VStr "1/0")] |}
            (fresh_run []) _
            (VDict [("x", VInt 1); ("next", VStr "B")]) _ _ eq_refl eq_refl eq_refl);
    vm_compute; reflexivity.
Defined.

(** ** The two namespaces *)

Lemma startswith_tool_inv s : startswith s "tool:" = true -> exists t, s = "tool:" +:+ t.
Proof.
  intros H. unfold startswith in H.
  repeat match type of H with
         | match ?x with EmptyString => _ | String _ _ => _ end = true =>
             destruct x; [discriminate|]
         | (_ && _) = true => apply andb_prop in H as [?%Ascii.eqb_eq H]; subst
         end.
  eexists. reflexivity.
Qed.

Lemma execute_fn_with_node R name fn nd k rs :
  startswith name "tool:" = true \/ name = "" ->
  execute_fn (with_node R name fn) nd k rs = execute_fn R nd k rs.
Proof.
  intros Hname. unfold execute_fn.
  destruct (truthy (fn_name nd)) eqn:Htruthy; [|done].
  destruct (fn_name nd) as [| b | z | s | l | d]; try done.
  destruct (startswith s "tool:") eqn:Hs; [done|].
  unfold call_node_fn. rewrite !table_get_str.
  assert (Hne : name <> s).
  { destruct Hname as [Hpre | ->]; [congruence|].
    simpl in Htruthy. by destruct (String.eqb_spec s ""). }
  simpl NODE_FUNCS. unfold register_node. by rewrite lookup_insert_ne.
Qed.

Lemma loop_body_with_node R name fn g k rs :
  startswith name "tool:" = true \/ name = "" ->
  loop_body (with_node R name fn) g k rs = loop_body R g k rs.
Proof.
  intros Hname. unfold loop_body.
  destruct (table_get (nodes g) k) as [e | [nd|]]; try done.
  by rewrite execute_fn_with_node.
Qed.

Lemma while_loop_with_node R name fn g left : forall visited k rs,
  startswith name "tool:" = true \/ name = "" ->
  while_loop (with_node R name fn) g left visited k rs = while_loop R g left visited k rs.
Proof.
  induction left as [|left IH]; intros visited k rs Hname; [done|].
  destruct k; simpl; try done; rewrite loop_body_with_node by done;
    destruct (loop_body R g _ rs); try done; by apply IH.
Qed.

(** X9. A node whose function reference is ["tool:<name>"] calls the
    tool registered under [name], whatever the name (empty, or with
    colons in it), and handles its outcome as the tool branch does; and a
    node function registered under a name that starts with ["tool:"], or
    under the empty name, is out of reach: every run, also of a graph
    with a node that refers to that very name, goes as if it had not been
    registered. *)
Theorem namespaces_are_separate (R : Runtime) (name : string) (fn : PyFn) :
  (forall nd k rs,
      fn_name nd = VStr ("tool:" +:+ name) ->
      execute_fn (with_tool R name fn) nd k rs = tool_step rs (fn (state rs))) /\
  (startswith name "tool:" = true \/ name = "" ->
   forall g rs,
     execute_graph_run (with_node R name fn) g rs = execute_graph_run R g rs).
Proof.
  split.
  - intros nd k rs Hfn. unfold execute_fn.
    rewrite Hfn, truthy_str by done. rewrite startswith_tool.
    unfold call_tool. rewrite split_colon_1_tool. cbv iota beta.
    simpl tools. unfold register_tool. rewrite lookup_insert_eq.
    unfold _call_fn, tool_step. by destruct (fn (state rs)) as [st []|st e].
  - intros Hname g rs. unfold execute_graph_run, try_run.
    by rewrite while_loop_with_node.
Qed.

(** ** Keys that are not strings *)

(** X10. A next key that is neither [None] nor a string (a function may
    return any value under ["next"]) is looked up all the same: a
    hashable one is reported as a missing node and ends the loop as a
    missing node does; a list or a dictionary makes the lookup raise
    [TypeError], and the run ends FAILED. *)
Theorem non_string_key_lookup (R : Runtime) (g : GraphDef) (k : value) (rs : RunState)
    (left visited : nat)
    (Hnone : k <> VNone)
    (Hstr : forall s, k <> VStr s) :
  if hashable k then
    while_loop R g (S left) visited k rs
      = Exited (_emit (set_current_node rs k)
                      ("Node '" +:+ str_of R k +:+ "' not found. Stopping."))
               (S visited)
  else
    while_loop R g (S left) visited k rs
      = Thrown (set_current_node rs k) (S visited)
               (TypeError ("unhashable type: '" +:+ type_name k +:+ "'")) /\
    status (try_run R g (S left) visited k rs).1 = "FAILED".
Proof.
  destruct k as [| b | z | s | l | d]; try done. by destruct (Hstr s).
Qed.

Lemma non_string_key_lookup_witness :
  while_loop bare_runtime branch_graph 1000 0 (VInt 5) (fresh_run [])
    = Exited (_emit (set_current_node (fresh_run []) (VInt 5))
                    "Node '5' not found. Stopping.") 1 /\
  status (try_run bare_runtime branch_graph 1000 0 (VList [VStr "B"]) (fresh_run [])).1
    = "FAILED".
Proof.
  split.
  - refine (non_string_key_lookup bare_runtime branch_graph (VInt 5) (fresh_run [])
              999 0 _ _); discriminate.
  - refine (proj2 (non_string_key_lookup bare_runtime branch_graph (VList [VStr "B"])
                     (fresh_run []) 999 0 _ _)); discriminate.
Defined.

Lemma namespaces_are_separate_witness :
  execute_fn (with_tool bare_runtime "a:b" directive_fn) (fn_node "N" "tool:a:b" VNone)
             (VStr "N") (fresh_run [])
    = Ok (fresh_run [("x", VInt 1); ("next", VStr "B")])
         (VDict [("x", VInt 1); ("next", VStr "B")]) /\
  execute_graph_run (with_node directive_runtime "tool:t" failing_fn) tool_entry_graph
                    (fresh_run [])
    = execute_graph_run directive_runtime tool_entry_graph (fresh_run []) /\
  state (execute_graph_run (with_node directive_runtime "tool:t" failing_fn)
           tool_entry_graph (fresh_run [])).1
    = [("x", VInt 1); ("next", VStr "B")] /\
  status (execute_graph_run (with_tool directive_runtime "t" failing_fn)
            tool_entry_graph (fresh_run [])).1 = "FAILED".
Proof.
  split; [|split; [|split]].
  - exact (proj1 (namespaces_are_separate bare_runtime "a:b" directive_fn)
             (fn_node "N" "tool:a:b" VNone) (VStr "N") (fresh_run []) eq_refl).
  - apply (proj2 (namespaces_are_separate directive_runtime "tool:t" failing_fn)).
    left. reflexivity.
  - vm_compute; reflexivity.
  - vm_compute; reflexivity.
Defined.

(** ** The subscriber, at every moment *)

Lemma messages_prefix_split (got : list string) : forall (L : list string) X,
  (map Some got ++ X)%list = (map Some L ++ [None])%list ->
  exists rest, L = (got ++ rest)%list /\ X = (map Some rest ++ [None])%list.
Proof.
  induction got as [|x got IH]; intros L X H; simpl in *.
  - by exists L.
  - destruct L as [|y L]; simpl in H; [discriminate|].
    inversion H as [[Hx Hrest]]. destruct (IH L X Hrest) as (rest & -> & ->).
    by exists rest.
Qed.

(** X11. At every moment of every interleaving of the engine with the
    subscriber of its run, what the subscriber has been sent is a prefix
    of the run's final log list followed by the done frame: lines arrive
    in order, none is skipped before a line that was sent, none is sent
    twice, and nothing follows the done frame. *)
Theorem stream_is_always_a_prefix (R : Runtime) (g : GraphDef) (rid gid : UUID)
    (st : dict) (sys : system)
    (Hreach : rtc sys_step (system_start R g (RunState_new rid gid st)) sys) :
  sent sys `prefix_of`
    (map LogFrame (logs (execute_graph_run R g (RunState_new rid gid st)).1)
       ++ [DoneFrame])%list.
Proof.
  pose proof (stream_inv_reachable _ _ _ (stream_inv_start R g rid gid st) Hreach) as Hinv.
  destruct Hinv as [(got & dropped & Hs & Heq & _) | [Hs _]].
  - apply messages_prefix_split in Heq as (rest & HL & _).
    rewrite Hs, HL, map_app, <- app_assoc. by eexists.
  - by rewrite Hs.
Qed.

Lemma stream_is_always_a_prefix_witness :
  sent drained_system `prefix_of`
    (map LogFrame (logs (execute_graph_run bare_runtime single_node_graph
                           (RunState_new "r" "g" [])).1) ++ [DoneFrame])%list.
Proof.
  exact (stream_is_always_a_prefix bare_runtime single_node_graph "r" "g" []
           drained_system single_node_schedule).
Defined.

Lemma engine_flush p : forall q s c,
  rtc sys_step {| to_put := p; queue := q; sent := s; closed := c |}
               {| to_put := []; queue := (q ++ p)%list; sent := s; closed := c |}.
Proof.
  induction p as [|item p IH]; intros q s c.
  - rewrite app_nil_r. apply rtc_refl.
  - eapply rtc_l; [apply engine_put|].
    replace (q ++ item :: p)%list with ((q ++ [item]) ++ p)%list
      by (by rewrite <- app_assoc).
    apply IH.
Qed.

Lemma subscriber_drains ms : forall s r,
  rtc sys_step
      {| to_put := []; queue := (map Some ms ++ None :: r)%list; sent := s;
         closed := false |}
      {| to_put := []; queue := r; sent := (s ++ map LogFrame ms ++ [DoneFrame])%list;
         closed := true |}.
Proof.
  induction ms as [|m ms IH]; intros s r; simpl.
  - eapply rtc_l; [by apply subscriber_turn|]. apply rtc_refl.
  - eapply rtc_l; [by apply subscriber_turn|].
    replace (s ++ LogFrame m :: map LogFrame ms ++ [DoneFrame])%list
      with ((s ++ [LogFrame m]) ++ map LogFrame ms ++ [DoneFrame])%list
      by (by rewrite <- app_assoc).
    apply IH.
Qed.

(** X12. No line is lost to a subscriber that is late or slow: from every
    moment of every interleaving at which the subscriber is still in its
    loop, the run can go on to a moment at which the subscriber has been
    sent the whole final log list and the done frame, and has left its
    loop. The queue keeps what was put until it is read. *)
Theorem stream_can_always_complete (R : Runtime) (g : GraphDef) (rid gid : UUID)
    (st : dict) (sys : system)
    (Hreach : rtc sys_step (system_start R g (RunState_new rid gid st)) sys)
    (Hopen : closed sys = false) :
  exists sys',
    rtc sys_step sys sys' /\
    closed sys' = true /\
    sent sys'
      = (map LogFrame (logs (execute_graph_run R g (RunState_new rid gid st)).1)
           ++ [DoneFrame])%list.
Proof.
  pose proof (stream_inv_reachable _ _ _ (stream_inv_start R g rid gid st) Hreach) as Hinv.
  destruct Hinv as [(got & dropped & Hs & Heq & Hdrop) | [_ Hc]]; [|congruence].
  rewrite (Hdrop Hopen) in Heq. simpl in Heq.
  apply messages_prefix_split in Heq as (rest & HL & Hq).
  destruct sys as [p q s c]. simpl in *. subst c s.
  eexists. split.
  - eapply rtc_trans; [apply engine_flush|].
    rewrite Hq. apply subscriber_drains.
  - split; [done|]. simpl. by rewrite HL, map_app, <- app_assoc.
Qed.

Lemma stream_can_always_complete_witness :
  exists sys',
    rtc sys_step (system_start bare_runtime single_node_graph (RunState_new "r" "g" []))
        sys' /\
    closed sys' = true /\
    sent sys'
      = (map LogFrame (logs (execute_graph_run bare_runtime single_node_graph
                               (RunState_new "r" "g" [])).1) ++ [DoneFrame])%list.
Proof.
  exact (stream_can_always_complete bare_runtime single_node_graph "r" "g" []
           _ (rtc_refl _ _) eq_refl).
Defined.

(** ** [create_graph] *)

Lemma parse_node_key k info nd : parse_node k info = NodeOk nd -> key nd = k.
Proof.
  unfold parse_node. destruct info; try done.
  destruct (if truthy _ then _ else _); try done. by intros [= <-].
Qed.

Lemma build_nodes_untyped items : forall acc table typed,
  build_nodes items acc false = inr (table, typed) -> typed = false.
Proof.
  induction items as [|[k info] items IH]; intros acc table typed H; simpl in H.
  - by inversion H.
  - destruct (parse_node k info); [by eapply IH | by eapply IH | done].
Qed.

Lemma build_nodes_keys items : forall acc table,
  build_nodes items acc true = inr (table, true) ->
  (forall k nd, acc !! k = Some nd -> key nd = k) ->
  forall k nd, table !! k = Some nd -> key nd = k.
Proof.
  induction items as [|[k0 info] items IH]; intros acc table H Hacc; simpl in H.
  - by inversion H; subst.
  - destruct (parse_node k0 info) as [nd0| |e] eqn:Hparse; [| |done].
    + apply (IH _ _ H). intros k nd.
      destruct (decide (k0 = k)) as [<-|Hne].
      * rewrite lookup_insert_eq. intros [= <-]. by eapply parse_node_key.
      * rewrite lookup_insert_ne by done. apply Hacc.
    + by apply build_nodes_untyped in H.
Qed.

Lemma build_nodes_dom items : forall acc table,
  build_nodes items acc true = inr (table, true) ->
  forall k, is_Some (table !! k) <-> dict_has items k = true \/ is_Some (acc !! k).
Proof.
  induction items as [|[k0 info] items IH]; intros acc table H k; simpl in H.
  - inversion H; subst. simpl. split; [by right | by intros [?|?]].
  - destruct (parse_node k0 info) as [nd0| |e] eqn:Hparse; [| |done].
    + rewrite (IH _ _ H k). simpl.
      destruct (String.eqb_spec k k0) as [->|Hne].
      * rewrite lookup_insert_eq. split; [by left | by right].
      * by rewrite lookup_insert_ne.
    + by apply build_nodes_untyped in H.
Qed.

Lemma build_nodes_lookup items : forall acc table,
  build_nodes items acc true = inr (table, true) ->
  NoDup (map fst items) ->
  forall k, table !! k =
            if dict_has items k
            then match parse_node k (dict_get items k) with
                 | NodeOk nd => Some nd
                 | _ => None
                 end
            else acc !! k.
Proof.
  induction items as [|[k0 info] items IH]; intros acc table H Hnodup k; simpl in H.
  - by inversion H; subst.
  - apply NoDup_cons in Hnodup as [Hk0 Hnodup].
    destruct (parse_node k0 info) as [nd0| |e] eqn:Hparse; [| |done].
    + rewrite (IH _ _ H Hnodup k). simpl.
      destruct (String.eqb_spec k k0) as [->|Hne].
      * by rewrite (dict_has_not_in items k0 Hk0), lookup_insert_eq, Hparse.
      * by rewrite lookup_insert_ne.
    + by apply build_nodes_untyped in H.
Qed.

Lemma build_nodes_raises items : forall acc typed,
  (exists e, build_nodes items acc typed = inl e) <->
  (exists k info, (k, info) ∈ items /\ forall i, info <> VDict i).
Proof.
  induction items as [|[k0 info] items IH]; intros acc typed; simpl.
  - split; [by intros [e ?] | intros (k & info & Hin & _); by apply elem_of_nil in Hin].
  - assert (Hinfo : (exists i, info = VDict i) \/ (forall i, info <> VDict i)).
    { destruct info; try (by right); left; by eexists. }
    destruct Hinfo as [[i ->] | Hnot].
    + assert (Hrec : forall acc' typed',
                (exists e, build_nodes items acc' typed' = inl e) <->
                (exists k info, (k, info) ∈ (k0, VDict i) :: items /\
                                forall i, info <> VDict i)).
      { intros acc' typed'. rewrite (IH acc' typed'). split.
        - intros (k & info & Hin & Hn). exists k, info. split; [by right | done].
        - intros (k & info & Hin & Hn). apply elem_of_cons in Hin as [[= -> ->] | Hin].
          + by destruct (Hn i).
          + by exists k, info. }
      unfold parse_node. destruct (if truthy _ then _ else _); apply Hrec.
    + split.
      * intros _. exists k0, info. split; [by left | done].
      * intros _. destruct info; try (by eexists). by destruct (Hnot d).
Qed.

(** X13. When [create_graph] returns, the store holds the new graph under
    the id drawn and is otherwise as before; the graph carries that id
    and the entry key of the definition (the empty string when the
    definition has none); its node table has exactly the keys of
    [definition["nodes"]], and every node records its own key. *)
Theorem create_graph_stores_graph (GRAPHS G : gmap UUID GraphDef) (gid gid' : UUID)
    (definition : dict)
    (Hcreated : create_graph GRAPHS gid definition = Created G gid') :
  gid' = gid /\
  (forall other, other <> gid -> get_graph G other = get_graph GRAPHS other) /\
  exists graph items,
    get_graph G gid = Some graph /\
    graph_id graph = gid /\
    dict_get_default definition "nodes" (VDict []) = VDict items /\
    VStr (entry graph) = dict_get_default definition "entry" (VStr "") /\
    (forall k, is_Some (nodes graph !! k) <-> dict_has items k = true) /\
    (forall k nd, nodes graph !! k = Some nd -> key nd = k).
Proof.
  unfold create_graph in Hcreated.
  destruct (dict_get_default definition "nodes" (VDict [])) as [| | | | |items] eqn:Hn;
    try done.
  destruct (build_nodes items ∅ true) as [e|[table typed]] eqn:Hb; [done|].
  destruct (dict_get_default definition "entry" (VStr "")) as [| | |e| |] eqn:He;
    try done.
  destruct typed; [|done]. inversion Hcreated; subst G gid'; clear Hcreated.
  split; [done|]. split.
  { intros other Hne. unfold get_graph. by rewrite lookup_insert_ne. }
  eexists _, items. unfold get_graph. rewrite lookup_insert_eq.
  split; [done|]. split; [done|]. split; [done|]. split; [done|]. simpl. split.
  - intros k. rewrite (build_nodes_dom items ∅ table Hb k), lookup_empty.
    split; [intros [?|[? ?]]; done | by left].
  - apply (build_nodes_keys items ∅ table Hb). intros k nd. by rewrite lookup_empty.
Qed.

Lemma create_graph_stores_graph_witness :
  exists graph items,
    get_graph (<[ "g1" := {| graph_id := "g1";
                             nodes := {[ "a" := fn_node "a" "tool:simple_issue_counter"
                                                        (VStr "b");
                                         "b" := plain_node "b" VNone ]};
                             entry := "a" |} ]> ∅) "g1" = Some graph /\
    graph_id graph = "g1" /\
    dict_get_default demo_definition "nodes" (VDict []) = VDict items /\
    VStr (entry graph) = dict_get_default demo_definition "entry" (VStr "") /\
    (forall k, is_Some (nodes graph !! k) <-> dict_has items k = true) /\
    (forall k nd, nodes graph !! k = Some nd -> key nd = k).
Proof.
  refine (proj2 (proj2 (create_graph_stores_graph ∅ _ "g1" "g1" demo_definition _))).
  vm_compute; reflexivity.
Defined.

(** X14. A node of a created graph carries what the definition gives for
    its key: its function reference is the ["fn"] entry and its edge the
    ["next"] entry ([None] when absent), and its meta is the ["meta"]
    entry when that is a non-empty mapping and empty otherwise, so that a
    missing, null or empty meta never yields a condition. *)
Theorem create_graph_node_fields (GRAPHS G : gmap UUID GraphDef) (gid gid' : UUID)
    (definition : dict) (items : dict) (graph : GraphDef) (k : string) (nd : NodeDef)
    (Hcreated : create_graph GRAPHS gid definition = Created G gid')
    (Hitems : dict_get_default definition "nodes" (VDict []) = VDict items)
    (Hkeys : NoDup (map fst items))
    (Hgraph : get_graph G gid = Some graph)
    (Hnode : nodes graph !! k = Some nd) :
  exists info,
    dict_get items k = VDict info /\
    fn_name nd = dict_get info "fn" /\
    next nd = dict_get info "next" /\
    (truthy (dict_get info "meta") = true -> dict_get info "meta" = VDict (meta nd)) /\
    (truthy (dict_get info "meta") = false -> meta nd = []).
Proof.
  unfold create_graph in Hcreated. rewrite Hitems in Hcreated.
  destruct (build_nodes items ∅ true) as [e|[table typed]] eqn:Hb; [done|].
  destruct (dict_get_default definition "entry" (VStr "")) as [| | |e| |]; try done.
  destruct typed; [|done]. inversion Hcreated; subst G gid'; clear Hcreated.
  unfold get_graph in Hgraph. rewrite lookup_insert_eq in Hgraph.
  inversion Hgraph; subst graph; clear Hgraph. simpl in Hnode.
  rewrite (build_nodes_lookup items ∅ table Hb Hkeys k), lookup_empty in Hnode.
  destruct (dict_has items k); [|done].
  unfold parse_node in Hnode.
  destruct (dict_get items k) as [| | | | |info]; try done.
  exists info. split; [done|].
  unfold dict_get_default in Hnode.
  destruct (dict_has info "meta") eqn:Hhas.
  - destruct (truthy (dict_get info "meta")) eqn:Ht.
    + destruct (dict_get info "meta") as [| | | | |m] eqn:Hm; try done.
      inversion Hnode; subst nd; clear Hnode. simpl. by repeat split.
    + inversion Hnode; subst nd; clear Hnode. simpl. by repeat split.
  - rewrite (dict_get_absent info "meta" Hhas) in *. simpl in Hnode.
    inversion Hnode; subst nd; clear Hnode. simpl. by repeat split.
Qed.

Lemma create_graph_node_fields_witness :
  exists info,
    dict_get [("a", VDict [("fn", VStr "tool:simple_issue_counter"); ("next", VStr "b")]);
              ("b", VDict [("fn", VNone); ("meta", VNone)])] "b" = VDict info /\
    fn_name (plain_node "b" VNone) = dict_get info "fn" /\
    next (plain_node "b" VNone) = dict_get info "next" /\
    (truthy (dict_get info "meta") = true ->
     dict_get info "meta" = VDict (meta (plain_node "b" VNone))) /\
    (truthy (dict_get info "meta") = false -> meta (plain_node "b" VNone) = []).
Proof.
  refine (create_graph_node_fields ∅ _ "g1" "g1" demo_definition _ _ "b" _ _ eq_refl _ _ _).
  - vm_compute; reflexivity.
  - repeat (apply NoDup_cons; split; [by (repeat (apply not_elem_of_cons; split;
                                                  [discriminate|]); apply not_elem_of_nil)|]).
    apply NoDup_nil_2.
  - vm_compute; reflexivity.
  - vm_compute; reflexivity.
Defined.

(** X15. [create_graph] raises exactly when [definition["nodes"]] is
    present and is not a mapping, or when the description of some node is
    not a mapping ([AttributeError] in both cases); the graph is then not
    stored. *)
Theorem create_graph_raises_iff (GRAPHS : gmap UUID GraphDef) (gid : UUID)
    (definition : dict) :
  (exists e, create_graph GRAPHS gid definition = CreateRaises e) <->
  (forall items, dict_get_default definition "nodes" (VDict []) <> VDict items) \/
  (exists items k info,
      dict_get_default definition "nodes" (VDict []) = VDict items /\
      (k, info) ∈ items /\ forall i, info <> VDict i).
Proof.
  unfold create_graph.
  destruct (dict_get_default definition "nodes" (VDict [])) as [| | | | |items] eqn:Hn;
    try (split; [by left | intros _; by eexists]).
  pose proof (build_nodes_raises items ∅ true) as Hr.
  destruct (build_nodes items ∅ true) as [e|[table typed]] eqn:Hb.
  - split; [|intros _; by eexists].
    intros _. right. destruct (proj1 Hr) as (k & info & Hin & Hnot); [by eexists|].
    by exists items, k, info.
  - split.
    + intros [e He].
      destruct (dict_get_default definition "entry" (VStr "")), typed; done.
    + intros [Hno | (items' & k & info & [= <-] & Hin & Hnot)]; [by destruct (Hno items)|].
      destruct (proj2 Hr) as [e He]; [by exists k, info | done].
Qed.

(** ** [simple_issue_counter] *)

Lemma dict_set_set d k v : dict_set (dict_set d k v) k v = dict_set d k v.
Proof.
  induction d as [|[k' v'] d IH]; simpl.
  - by rewrite String.eqb_refl.
  - destruct (String.eqb_spec k k') as [->|Hne]; simpl.
    + by rewrite String.eqb_refl.
    + destruct (String.eqb_spec k k'); [done | by rewrite IH].
Qed.

(** X16. [simple_issue_counter] either raises [TypeError], leaving the
    state as it was, which happens exactly when [state["basic_issues"]]
    is present and has no length; or it writes the count to
    [state["issue_count"]] and returns it in a mapping. The count is the
    length of [basic_issues] (0 when absent) plus one when
    [has_high_complexity] is truthy. No other key changes, the merge of
    the returned mapping by the engine changes nothing, and calling the
    tool again gives the same state and result. *)
Theorem simple_issue_counter_spec (st : dict) :
  match simple_issue_counter st with
  | Raises st' e =>
      st' = st /\ exn_is_Exception e = true /\
      dict_has st "basic_issues" = true /\
      py_len (dict_get st "basic_issues") = inl e
  | Returns st' res =>
      exists n : nat,
        (if dict_has st "basic_issues" then py_len (dict_get st "basic_issues")
         else inr 0) = inr n /\
        let cnt := (Z.of_nat n
                    + if truthy (dict_get st "has_high_complexity") then 1 else 0)%Z in
        res = VDict [("issue_count", VInt cnt)] /\
        st' = dict_set st "issue_count" (VInt cnt) /\
        (forall x, x <> "issue_count" -> dict_get st' x = dict_get st x) /\
        dict_update st' [("issue_count", VInt cnt)] = st' /\
        simple_issue_counter st' = Returns st' res
  end.
Proof.
  unfold simple_issue_counter at 1. unfold dict_get_default.
  destruct (dict_has st "basic_issues") eqn:Hhas.
  - destruct (py_len (dict_get st "basic_issues")) as [e|n] eqn:Hlen.
    + split; [done|]. split; [|done].
      destruct (dict_get st "basic_issues"); simpl in Hlen; by inversion Hlen.
    + exists n. split; [done|]. cbv zeta.
      assert (Hcnt : (if truthy (dict_get st "has_high_complexity")
                      then (0 + Z.of_nat n + 1)%Z else (0 + Z.of_nat n)%Z)
                     = (Z.of_nat n + if truthy (dict_get st "has_high_complexity")
                                     then 1 else 0)%Z)
        by (destruct (truthy _); lia).
      rewrite Hcnt. split; [done|]. split; [done|]. split.
      { intros x Hx. rewrite dict_get_set. by destruct (String.eqb_spec x "issue_count"). }
      split; [apply dict_set_set|].
      unfold simple_issue_counter, dict_get_default.
      rewrite dict_has_set, !dict_get_set, Hhas. simpl. rewrite Hlen, Hcnt.
      by rewrite dict_set_set.
  - exists 0. split; [done|]. cbv zeta.
    assert (Hcnt : (if truthy (dict_get st "has_high_complexity")
                    then (0 + Z.of_nat 0 + 1)%Z else (0 + Z.of_nat 0)%Z)
                   = (Z.of_nat 0 + if truthy (dict_get st "has_high_complexity")
                                   then 1 else 0)%Z)
      by (destruct (truthy _); lia).
    rewrite Hcnt. split; [done|]. split; [done|]. split.
    { intros x Hx. rewrite dict_get_set. by destruct (String.eqb_spec x "issue_count"). }
    split; [apply dict_set_set|].
    unfold simple_issue_counter, dict_get_default.
    rewrite dict_has_set, !dict_get_set, Hhas. simpl. rewrite Hcnt.
    by rewrite dict_set_set.
Qed.

(** ** Graphs that never end *)

Lemma loop_body_endless R g k nd rs :
  endless g ->
  nodes g !! k = Some nd ->
  is_True (dict_get (state rs) "stop") = false ->
  exists rs' k',
    loop_body R g (VStr k) rs = Next rs' (VStr k') /\
    is_Some (nodes g !! k') /\ state rs' = state rs.
Proof.
  intros Hg Hnode Hstop.
  destruct (Hg k nd Hnode) as (Hfn & k' & Hedge & Hne & Hk').
  rewrite (loop_body_found R g k nd rs Hnode).
  unfold execute_fn. rewrite Hfn. cbv zeta.
  rewrite (decide_next_static R nd VNone _ eq_refl).
  unfold static_next. rewrite Hedge, truthy_str by done.
  rewrite stop_override_spec. simpl state. rewrite Hstop.
  eexists. exists k'. split; [reflexivity|]. by split.
Qed.

Lemma while_loop_endless R g left : forall visited k rs,
  endless g ->
  is_Some (nodes g !! k) ->
  is_True (dict_get (state rs) "stop") = false ->
  exists rs',
    while_loop R g left visited (VStr k) rs = Exited rs' (visited + left) /\
    state rs' = state rs.
Proof.
  induction left as [|left IH]; intros visited k rs Hg [nd Hnode] Hstop.
  - exists rs. simpl. by rewrite Nat.add_0_r.
  - destruct (loop_body_endless R g k nd rs Hg Hnode Hstop) as (rs1 & k' & Hb & Hk' & Hst).
    rewrite <- Hst in Hstop.
    destruct (IH (S visited) k' rs1 Hg Hk' Hstop) as (rs' & Hw & Hst').
    exists rs'. simpl. rewrite Hb, Hw.
    split; [f_equal; lia | congruence].
Qed.

(** X17. A graph in which every node is without a function and has a
    direct edge to a node of the graph, entered at one of its nodes with
    no stop flag in the state, is stopped after exactly [MAX_STEPS]
    turns: the run ends FAILED with the line about the step bound as its
    last log line, without an exception, and the state is as it was. *)
Theorem endless_graph_fails_at_bound (R : Runtime) (g : GraphDef) (rs : RunState)
    (Hendless : endless g)
    (Hentry : is_Some (nodes g !! entry g))
    (Hstop : is_True (dict_get (state rs) "stop") = false) :
  let out := execute_graph_run R g rs in
  visits R g rs = MAX_STEPS /\
  out.2 = None /\
  status out.1 = "FAILED" /\
  state out.1 = state rs /\
  last (logs out.1) = Some "Max steps 1000 reached, aborting.".
Proof.
  unfold execute_graph_run, visits, try_run.
  match goal with |- context [while_loop R g MAX_STEPS 0 _ ?r] =>
    destruct (while_loop_endless R g MAX_STEPS 0 (entry g) r Hendless Hentry Hstop)
      as (rs' & Hw & Hst) end.
  rewrite Hw. simpl "+". split; [done|].
  unfold after_loop. rewrite Nat.leb_refl. cbn [fst snd].
  split; [done|]. split; [done|]. split; [exact Hst|].
  rewrite logs_queue_put. simpl logs. apply last_snoc.
Qed.

Lemma endless_graph_fails_at_bound_witness :
  status (execute_graph_run bare_runtime cycle_graph (fresh_run [])).1 = "FAILED".
Proof.
  refine (proj1 (proj2 (proj2 (endless_graph_fails_at_bound bare_runtime cycle_graph
                                 (fresh_run []) _ _ eq_refl)))).
  - intros k nd Hnode.
    destruct (decide (k = "A")) as [->|HA]; [|destruct (decide (k = "B")) as [->|HB]].
    + assert (Hnd : nd = plain_node "A" (VStr "B"))
        by (vm_compute in Hnode; injection Hnode as <-; reflexivity).
      subst nd. split; [done|]. exists "B". split; [done|]. split; [done|].
      vm_compute. by eexists.
    + assert (Hnd : nd = plain_node "B" (VStr "A"))
        by (vm_compute in Hnode; injection Hnode as <-; reflexivity).
      subst nd. split; [done|]. exists "A". split; [done|]. split; [done|].
      vm_compute. by eexists.
    + unfold cycle_graph in Hnode. simpl in Hnode.
      rewrite lookup_insert_ne, lookup_singleton_ne in Hnode by done. done.
  - vm_compute. by eexists.
Defined.

(** ** What the copy shares *)

(** X18. The copy made by [run_graph_async] shares every nested object
    with the caller's mapping: when the initial state holds a list under
    a key, an [append] made to it through the run's state appends to the
    very list the caller's mapping holds, and leaves both mappings
    themselves as they were. *)
Theorem nested_list_is_shared (GRAPHS : gmap UUID GraphDef) (h h1 : Heap.heap)
    (rid gid : UUID) (l0 l1 : Heap.loc) (run : Heap.Run)
    (d : list (string * Heap.ref)) (x : string) (xs : list Heap.ref) (v : Heap.ref)
    (Hrun : Heap.run_graph_async GRAPHS h rid gid l0 = Some (h1, run))
    (Hcaller : h !! l0 = Some (Heap.ODict d))
    (Hslot : Heap.slot_get d x = Some (Heap.RObj l1))
    (Hlist : h !! l1 = Some (Heap.OList xs)) :
  let h2 := Heap.apply (Heap.state run) h1 (Heap.Append [x] v) in
  h2 !! l1 = Some (Heap.OList (xs ++ [v])%list) /\
  h2 !! l0 = Some (Heap.ODict d) /\
  h2 !! Heap.state run = Some (Heap.ODict d).
Proof.
  unfold Heap.run_graph_async in Hrun.
  destruct (GRAPHS !! gid) as [graph|]; [|done].
  unfold Heap.dict_copy, Heap.alloc in Hrun. rewrite Hcaller in Hrun.
  inversion Hrun; subst h1 run; clear Hrun. simpl.
  pose proof (lookup_lt_Some _ _ _ Hcaller) as Hlt0.
  pose proof (lookup_lt_Some _ _ _ Hlist) as Hlt1.
  assert (Hnew : (h ++ [Heap.ODict d])%list !! length h = Some (Heap.ODict d))
    by (by rewrite lookup_app_r, Nat.sub_diag by lia).
  assert (Hl1 : (h ++ [Heap.ODict d])%list !! l1 = Some (Heap.OList xs))
    by (by rewrite lookup_app_l by lia).
  unfold Heap.apply. simpl. rewrite Hnew, Hslot, Hl1. simpl.
  split; [|split].
  - apply list_lookup_insert_eq. rewrite length_app. simpl. lia.
  - rewrite list_lookup_insert_ne by (intros ->; congruence).
    by rewrite lookup_app_l by lia.
  - rewrite list_lookup_insert_ne by lia. exact Hnew.
Qed.

Lemma nested_list_is_shared_witness :
  Heap.apply 2 (caller_heap ++ [Heap.ODict [("xs", Heap.RObj 1)]])%list
             (Heap.Append ["xs"] (Heap.RInt 2)) !! 1
    = Some (Heap.OList [Heap.RInt 1; Heap.RInt 2]).
Proof.
  assert (Hrun : Heap.run_graph_async one_graph caller_heap "r" "g" 0
                 = Some ((caller_heap ++ [Heap.ODict [("xs", Heap.RObj 1)]])%list,
                         {| Heap.run_id := "r"; Heap.graph_id := "g"; Heap.state := 2;
                            Heap.status := "PENDING" |}))
    by (vm_compute; reflexivity).
  exact (proj1 (nested_list_is_shared one_graph caller_heap _ "r" "g" 0 1 _
                  [("xs", Heap.RObj 1)] "xs" [Heap.RInt 1] (Heap.RInt 2)
                  Hrun eq_refl eq_refl eq_refl)).
Defined.
